(** * ExpenseScreen: the expense ledger of the student expense tracker

    A shallow embedding of [src/ExpenseScreen.js]: the component state
    (the four [useState] hooks), the SQLite table [expenses] behind
    [useSQLiteContext], the handlers [loadExpenses], [addExpense],
    [deleteExpense], the effect [setup], and the chart helper
    [getCategoryTotals].

    - JavaScript strings are sequences of UTF-16 code units.
    - JavaScript numbers are IEEE 754 binary64 values, taken from the
      specification of floating-point arithmetic in [SpecFloat]
      ([prec = 53], [emax = 1024], rounding to nearest, ties to even).
    - The table is a finite map from rowid to row together with the
      AUTOINCREMENT counter kept in [sqlite_sequence].
    - The handlers run in a small monad that threads the database and
      the hooks, records every call made to the database or to a hook
      setter, and stops at the first rejected [await]. *)

From Stdlib Require Import ZArith NArith List Ascii String Lia Permutation.
From Stdlib Require Import Sorting.Sorted.
From Stdlib Require Import SpecFloat.
From Stdlib Require Import DecimalN DecimalPos DecimalFacts.
From stdpp Require Import base decidable option list sorting fin_maps gmap.

Local Open Scope Z_scope.

(** ** JavaScript strings *)

Module JsString.

(** A string is its sequence of UTF-16 code units. *)
Abbreviation t := (list N).

(** An ASCII literal as a JavaScript string. *)
Definition lit (s : string) : t :=
  List.map N_of_ascii (list_ascii_of_string s).

Definition eqb (a b : t) : bool := bool_decide (a = b).

(** WhiteSpace and LineTerminator code points (ECMA-262, 12.2 and 12.3):
    the characters removed by [String.prototype.trim] and skipped by
    [parseFloat]. *)
Definition is_white_space (c : N) : bool :=
  let c := Z.of_N c in
     (c =? 0x09) || (c =? 0x0A) || (c =? 0x0B) || (c =? 0x0C) || (c =? 0x0D)
  || (c =? 0x20) || (c =? 0xA0) || (c =? 0x1680)
  || ((0x2000 <=? c) && (c <=? 0x200A))
  || (c =? 0x2028) || (c =? 0x2029) || (c =? 0x202F) || (c =? 0x205F)
  || (c =? 0x3000) || (c =? 0xFEFF).

Fixpoint trimStart (s : t) : t :=
  match s with
  | c :: s' => if is_white_space c then trimStart s' else s
  | [] => []
  end.

Definition trimEnd (s : t) : t := rev (trimStart (rev s)).

(** [s.trim()] *)
Definition trim (s : t) : t := trimEnd (trimStart s).

(** ToBoolean of a string: only the empty string is falsy. *)
Definition truthy (s : t) : bool :=
  match s with [] => false | _ => true end.

End JsString.

Abbreviation jsstr := JsString.t.
Abbreviation js := JsString.lit.

(** ** JavaScript numbers *)

Module JsNumber.

Definition t := spec_float.

Definition prec : Z := 53.
Definition emax : Z := 1024.

Definition zero : t := S754_zero false.
Definition NaN : t := S754_nan.
Definition Infinity : t := S754_infinity false.

#[global] Instance eq_dec : EqDecision spec_float.
Proof. solve_decision. Defined.

Definition add : t -> t -> t := SFadd prec emax.
Definition leb : t -> t -> bool := SFleb.
Definition ltb : t -> t -> bool := SFltb.

(** [isNaN(x)] on a number. *)
Definition isNaN (x : t) : bool :=
  match x with S754_nan => true | _ => false end.

(** [Number.isFinite(x)]. *)
Definition isFinite (x : t) : bool :=
  match x with S754_zero _ | S754_finite _ _ _ => true | _ => false end.

(** ToBoolean of a number: [+0], [-0] and [NaN] are falsy. *)
Definition truthy (x : t) : bool :=
  match x with S754_zero _ | S754_nan => false | _ => true end.

(** The number nearest to [(-1)^s * m * 10^e] for a natural [m]
    (the rounding of a decimal literal, ECMA-262 7.1.4.1.1). *)
Definition of_decimal (s : bool) (m : N) (e : Z) : t :=
  match m with
  | N0 => S754_zero s
  | Npos p =>
      match e with
      | Zneg k =>
          let '(q, e', l) :=
            SFdiv_core_binary prec emax (Zpos p) 0 (Zpos (10 ^ k)) 0 in
          binary_round_aux prec emax s q e' l
      | Zpos k => binary_round prec emax s (p * 10 ^ k)%positive 0
      | Z0 => binary_round prec emax s p 0
      end
  end.

(** A whole number as a JavaScript number. *)
Definition of_Z (n : Z) : t := binary_normalize prec emax n 0 false.

End JsNumber.

Abbreviation number := JsNumber.t.

(** ** parseFloat *)

Module ParseFloat.

Import JsString.

Definition is_digit (c : N) : bool := ((48 <=? c) && (c <=? 57))%N.
Definition digit_value (c : N) : N := (c - 48)%N.

(** DecimalDigits: the longest run of digits at the head of [s], read
    as a natural number on top of [acc], with the number of digits
    read and the rest of the string. *)
Fixpoint digits (s : t) (acc : N) (count : nat) : N * nat * t :=
  match s with
  | c :: s' =>
      if is_digit c then digits s' (10 * acc + digit_value c)%N (S count)
      else (acc, count, s)
  | [] => (acc, count, [])
  end.

(** An optional sign; [true] is minus. *)
Definition sign (s : t) : bool * t :=
  match s with
  | 43%N :: s' => (false, s')
  | 45%N :: s' => (true, s')
  | _ => (false, s)
  end.

(** ExponentPart: [e] or [E], an optional sign and at least one digit;
    anything else is not part of the literal and counts as exponent 0. *)
Definition exponent (s : t) : Z :=
  match s with
  | c :: s' =>
      if ((c =? 101) || (c =? 69))%N then
        let '(neg, s'') := sign s' in
        let '(n, count, _) := digits s'' 0%N 0%nat in
        match count with
        | O => 0
        | _ => if neg then - Z.of_N n else Z.of_N n
        end
      else 0
  | [] => 0
  end.

Fixpoint starts_with (p s : t) : bool :=
  match p, s with
  | [], _ => true
  | a :: p', b :: s' => (a =? b)%N && starts_with p' s'
  | _ :: _, [] => false
  end.

(** The value of the longest prefix of [s] that is a
    StrUnsignedDecimalLiteral, with sign [neg]; NaN when there is none. *)
Definition unsigned_literal (neg : bool) (s : t) : number :=
  if starts_with (lit "Infinity") s then S754_infinity neg
  else
    let '(int, icount, rest) := digits s 0%N 0%nat in
    match rest with
    | 46%N :: rest' =>
        let '(m, count, rest'') := digits rest' int 0%nat in
        match icount, count with
        | O, O => JsNumber.NaN
        | _, _ => JsNumber.of_decimal neg m (exponent rest'' - Z.of_nat count)
        end
    | _ =>
        match icount with
        | O => JsNumber.NaN
        | _ => JsNumber.of_decimal neg int (exponent rest)
        end
    end.

(** [parseFloat(string)] (ECMA-262, 19.2.4). *)
Definition parseFloat (s : t) : number :=
  let '(neg, s') := sign (trimStart s) in
  unsigned_literal neg s'.

End ParseFloat.

Abbreviation parseFloat := ParseFloat.parseFloat.

(** ** The rows handed to the component *)

Module Expense.

(** One element of [expenses]: the object [getAllAsync] builds for a
    row.  [category] is an option because [getCategoryTotals] also
    provides for a record without one; rows read from the table always
    carry a category (the column is NOT NULL). *)
Record t := mk {
  id : Z;
  amount : number;
  category : option jsstr;
  note : option jsstr
}.

End Expense.

(** ** The SQLite database

    Rowids are kept as mathematical integers: SQLite stores them in 64
    bits and refuses an AUTOINCREMENT insert once the counter has reached
    [2^63 - 1], which no run of this component reaches by counting up
    from an empty table. *)

Module Db.

(** [amount REAL NOT NULL, category TEXT NOT NULL, note TEXT]; the
    [id INTEGER PRIMARY KEY] column is the key of the row in [rows]. *)
Record row := mk_row {
  row_amount : number;
  row_category : jsstr;
  row_note : option jsstr
}.

(** The table and its entry in [sqlite_sequence]: the largest rowid the
    table has ever held (0 for a table that never held a row). *)
Record table := mk_table {
  rows : gmap Z row;
  sequence : Z
}.

(** A database file: the table [expenses] if it has been created. *)
Definition t := option table.

Inductive error := NoSuchTable | NotNullConstraint.

Definition to_expense (kv : Z * row) : Expense.t :=
  Expense.mk kv.1 (row_amount kv.2) (Some (row_category kv.2)) (row_note kv.2).

Definition id_desc (a b : Expense.t) : Prop := Expense.id b <= Expense.id a.

#[global] Instance id_desc_dec a b : Decision (id_desc a b) :=
  Z_le_dec (Expense.id b) (Expense.id a).

Definition largest (ks : list Z) : option Z :=
  foldr (fun k acc => Some (match acc with Some j => Z.max k j | None => k end))
        None ks.

(** The rowid AUTOINCREMENT gives to a new row: one more than the
    largest rowid in the table (1 for an empty table), and at least one
    more than the counter. *)
Definition next_rowid (tb : table) : Z :=
  Z.max (match largest (map_to_list (rows tb)).*1 with
         | Some k => k + 1
         | None => 1
         end)
        (sequence tb + 1).

(** [CREATE TABLE IF NOT EXISTS expenses (...)] *)
Definition create_if_not_exists (d : t) : t :=
  match d with
  | Some tb => Some tb
  | None => Some (mk_table ∅ 0)
  end.

(** The rows of a table as [ORDER BY id DESC] returns them. *)
Definition order_by_id_desc (m : gmap Z row) : list Expense.t :=
  merge_sort id_desc (to_expense <$> map_to_list m).

(** [SELECT * FROM expenses ORDER BY id DESC] *)
Definition select_all_desc (d : t) : error + list Expense.t :=
  match d with
  | Some tb => inr (order_by_id_desc (rows tb))
  | None => inl NoSuchTable
  end.

(** [INSERT INTO expenses (amount, category, note) VALUES (?, ?, ?)];
    a NaN parameter is bound as NULL. *)
Definition insert (a : number) (c : jsstr) (n : option jsstr) (d : t)
  : error + t :=
  match d with
  | Some tb =>
      if JsNumber.isNaN a then inl NotNullConstraint
      else
        let i := next_rowid tb in
        inr (Some (mk_table (<[i := mk_row a c n]> (rows tb)) i))
  | None => inl NoSuchTable
  end.

(** [DELETE FROM expenses WHERE id = ?] *)
Definition delete_id (i : Z) (d : t) : error + t :=
  match d with
  | Some tb => inr (Some (mk_table (delete i (rows tb)) (sequence tb)))
  | None => inl NoSuchTable
  end.

End Db.

(** ** The component *)

(** The four [useState] hooks of [ExpenseScreen]. *)
Record hooks := mk_hooks {
  expenses : list Expense.t;
  amount : jsstr;
  category : jsstr;
  note : jsstr
}.

(** The calls a handler makes, in the order it makes them. *)
Inductive call :=
| ExecCreateTable
| RunInsert (a : number) (c : jsstr) (n : option jsstr)
| RunDelete (i : Z)
| GetAll
| SetExpenses (rows : list Expense.t)
| SetAmount (s : jsstr)
| SetCategory (s : jsstr)
| SetNote (s : jsstr).

Record world := mk_world {
  db : Db.t;
  ui : hooks;
  calls : list call
}.

(** An [async] function either runs to its end or stops at an [await]
    whose promise the database rejected. *)
Inductive outcome (A : Type) :=
| Resolved (a : A) (w : world)
| Rejected (e : Db.error) (w : world).
Arguments Resolved {A} a w.
Arguments Rejected {A} e w.

Definition async (A : Type) := world -> outcome A.

#[global] Instance async_ret : MRet async := fun A a w => Resolved a w.

#[global] Instance async_bind : MBind async := fun A B k m w =>
  match m w with
  | Resolved a w' => k a w'
  | Rejected e w' => Rejected e w'
  end.

Definition final {A} (o : outcome A) : world :=
  match o with Resolved _ w => w | Rejected _ w => w end.

(** A call that is not awaited: the caller goes on whatever becomes of
    the promise. *)
Definition detached (m : async unit) : async unit :=
  fun w => Resolved tt (final (m w)).

Definition log (c : call) (w : world) : world :=
  mk_world (db w) (ui w) (calls w ++ [c]).

(** A statement against [db], logged and then run. *)
Definition statement {A} (c : call) (run : Db.t -> Db.error + A)
    (commit : A -> world -> world) : async A :=
  fun w =>
    let w := log c w in
    match run (db w) with
    | inr a => Resolved a (commit a w)
    | inl e => Rejected e w
    end.

Definition set_db (d : Db.t) (w : world) : world :=
  mk_world d (ui w) (calls w).

Definition execAsync_create : async unit :=
  statement ExecCreateTable (fun d => inr (Db.create_if_not_exists d)) set_db ;;
  mret tt.

Definition getAllAsync : async (list Expense.t) :=
  statement GetAll Db.select_all_desc (fun _ w => w).

Definition runAsync_insert (a : number) (c : jsstr) (n : option jsstr)
  : async unit :=
  statement (RunInsert a c n) (Db.insert a c n) set_db ;; mret tt.

Definition runAsync_delete (i : Z) : async unit :=
  statement (RunDelete i) (Db.delete_id i) set_db ;; mret tt.

Definition setter (c : call) (f : hooks -> hooks) : async unit :=
  fun w => Resolved tt (mk_world (db w) (f (ui w)) (calls w ++ [c])).

Definition setExpenses (rows : list Expense.t) : async unit :=
  setter (SetExpenses rows)
         (fun h => mk_hooks rows (amount h) (category h) (note h)).

Definition setAmount (s : jsstr) : async unit :=
  setter (SetAmount s)
         (fun h => mk_hooks (expenses h) s (category h) (note h)).

Definition setCategory (s : jsstr) : async unit :=
  setter (SetCategory s)
         (fun h => mk_hooks (expenses h) (amount h) s (note h)).

Definition setNote (s : jsstr) : async unit :=
  setter (SetNote s)
         (fun h => mk_hooks (expenses h) (amount h) (category h) s).

(** The value of a hook in the render the handler belongs to. *)
Definition read {A} (f : hooks -> A) : async A := fun w => Resolved (f (ui w)) w.

Definition loadExpenses : async unit :=
  rows ← getAllAsync;
  setExpenses rows.

Definition addExpense : async unit :=
  amount ← read amount;
  category ← read category;
  note ← read note;
  let amountNumber := parseFloat amount in
  if JsNumber.isNaN amountNumber || JsNumber.leb amountNumber JsNumber.zero
  then mret tt
  else
    let trimmedCategory := JsString.trim category in
    let trimmedNote := JsString.trim note in
    if negb (JsString.truthy trimmedCategory) then mret tt
    else
      runAsync_insert amountNumber trimmedCategory
        (if JsString.truthy trimmedNote then Some trimmedNote else None) ;;
      setAmount [] ;;
      setCategory [] ;;
      setNote [] ;;
      detached loadExpenses.

Definition deleteExpense (id : Z) : async unit :=
  runAsync_delete id ;;
  detached loadExpenses.

Definition setup : async unit :=
  execAsync_create ;;
  loadExpenses.

(** ** The object [totals] of [getCategoryTotals]

    [const totals = {}] is an ordinary object whose prototype is
    [Object.prototype]: reading a key it does not own falls through to
    the prototype, and writing the key [__proto__] runs the prototype's
    setter. *)

Module JsObject.

(** The primitive values [getCategoryTotals] stores: a number, or the
    string that [+] builds once its left operand is not a number.
    [PText k xs] is the text of the inherited value of key [k] (the
    source text of a built-in function, or [[object Object]] for
    [__proto__]) followed by the decimal text of each number of [xs]. *)
Inductive prim :=
| PNum (x : number)
| PText (origin : jsstr) (appended : list number).

Inductive value :=
| Undefined
| Prim (p : prim)
| Builtin (name : jsstr).

(** The own properties, in the order of their creation. *)
Abbreviation t := (list (jsstr * prim)).

(** The property names of [Object.prototype] (ECMA-262, 20.1.3 and
    B.2.2). *)
Definition Object_prototype : list jsstr :=
  [ js "constructor"; js "__defineGetter__"; js "__defineSetter__";
    js "hasOwnProperty"; js "__lookupGetter__"; js "__lookupSetter__";
    js "isPrototypeOf"; js "propertyIsEnumerable"; js "toString";
    js "valueOf"; js "__proto__"; js "toLocaleString" ].

Definition inherited (k : jsstr) : bool :=
  existsb (JsString.eqb k) Object_prototype.

Fixpoint own (o : t) (k : jsstr) : option prim :=
  match o with
  | (k', p) :: o' => if JsString.eqb k k' then Some p else own o' k
  | [] => None
  end.

(** [o[k]] *)
Definition get (o : t) (k : jsstr) : value :=
  match own o k with
  | Some p => Prim p
  | None => if inherited k then Builtin k else Undefined
  end.

(** An own property keeps its place when its value changes; a new one
    goes last. *)
Fixpoint define (o : t) (k : jsstr) (p : prim) : t :=
  match o with
  | (k', p') :: o' =>
      if JsString.eqb k k' then (k', p) :: o' else (k', p') :: define o' k p
  | [] => [(k, p)]
  end.

(** [o[k] = p] for a primitive [p]: the setter of [__proto__] ignores
    a value that is neither an object nor null; the other inherited
    properties are writable data properties, so that the assignment
    creates an own property. *)
Definition set (o : t) (k : jsstr) (p : prim) : t :=
  if JsString.eqb k (js "__proto__") then o else define o k p.

(** ToBoolean; the text of a built-in is never empty. *)
Definition truthy (v : value) : bool :=
  match v with
  | Undefined => false
  | Prim (PNum x) => JsNumber.truthy x
  | Prim (PText _ _) => true
  | Builtin _ => true
  end.

(** [v + a] for a number [a]. *)
Definition plus (v : value) (a : number) : prim :=
  match v with
  | Undefined => PNum JsNumber.NaN
  | Prim (PNum x) => PNum (JsNumber.add x a)
  | Prim (PText k xs) => PText k (xs ++ [a])
  | Builtin k => PText k [a]
  end.

(** An array index is the canonical decimal text of an integer below
    [2^32 - 1] (ECMA-262, 6.1.7). *)
Definition array_index (k : jsstr) : option N :=
  match k with
  | [] => None
  | c :: k' =>
      match ParseFloat.digits k 0%N 0%nat with
      | (n, _, []) =>
          if ((negb (c =? 48) || bool_decide (k' = [])) && (n <? 2 ^ 32 - 1))%N
          then Some n else None
      | _ => None
      end
  end.

Definition index_le (a b : N * (jsstr * prim)) : Prop := (a.1 <= b.1)%N.

#[global] Instance index_le_dec a b : Decision (index_le a b) :=
  decide (a.1 <= b.1)%N.

Definition indexed (o : t) : list (N * (jsstr * prim)) :=
  omap (fun kv => n ← array_index kv.1; Some (n, kv)) o.

Definition named (o : t) : t :=
  filter (fun kv => array_index kv.1 = None) o.

(** [Object.entries(o)]: the array indices in ascending numeric order,
    then the other keys in the order of their creation (ECMA-262,
    10.1.11). *)
Definition entries (o : t) : t :=
  (merge_sort index_le (indexed o)).*2 ++ named o.

End JsObject.

(** ** getCategoryTotals *)

Module COLORS.
Definition darkText : jsstr := js "#1B0000".
Definition pieChartColors : list jsstr :=
  [ js "#FF6B6B"; js "#4ECDC4"; js "#45B7D1"; js "#FFA07A";
    js "#98D8C8"; js "#F7DC6F"; js "#BB8FCE"; js "#85C1E2" ].
End COLORS.

Module Slice.

(** One element of the array handed to [PieChart]. *)
Record t := mk {
  name : jsstr;
  amount : JsObject.prim;
  color : jsstr;
  legendFontColor : jsstr;
  legendFontSize : Z
}.

End Slice.

(** The body of [expenses.forEach]. *)
Definition tally (totals : JsObject.t) (exp : Expense.t) : JsObject.t :=
  let category :=
    match Expense.category exp with
    | Some c => if JsString.truthy c then c else js "Other"
    | None => js "Other"
    end in
  let amount :=
    if JsNumber.truthy (Expense.amount exp) then Expense.amount exp
    else JsNumber.zero in
  let totals :=
    if negb (JsObject.truthy (JsObject.get totals category))
    then JsObject.set totals category (JsObject.PNum JsNumber.zero)
    else totals in
  JsObject.set totals category
    (JsObject.plus (JsObject.get totals category) amount).

Definition getCategoryTotals (expenses : list Expense.t) : list Slice.t :=
  let totals := fold_left tally expenses [] in
  imap (fun index '(category, total) =>
          Slice.mk category total
            (nth (index mod length COLORS.pieChartColors)
                 COLORS.pieChartColors [])
            COLORS.darkText 14)
       (JsObject.entries totals).

(** ** What the component renders *)

Module View.

(** A piece of displayed text: literal code units, or the text the
    engine's Number::toString gives for a number (ECMA-262, 6.1.6.1.20),
    which this development does not spell out. *)
Inductive piece :=
| Literal (s : jsstr)
| NumberText (x : number).

Fixpoint uint_text (d : Decimal.uint) : jsstr :=
  match d with
  | Decimal.Nil => []
  | Decimal.D0 d => 48%N :: uint_text d
  | Decimal.D1 d => 49%N :: uint_text d
  | Decimal.D2 d => 50%N :: uint_text d
  | Decimal.D3 d => 51%N :: uint_text d
  | Decimal.D4 d => 52%N :: uint_text d
  | Decimal.D5 d => 53%N :: uint_text d
  | Decimal.D6 d => 54%N :: uint_text d
  | Decimal.D7 d => 55%N :: uint_text d
  | Decimal.D8 d => 56%N :: uint_text d
  | Decimal.D9 d => 57%N :: uint_text d
  end.

(** The decimal digits of a natural number. *)
Definition decimal (n : N) : jsstr := uint_text (N.to_uint n).

(** The integer [n] for which [n / 100] is nearest to [m * 2^e], the
    larger one of two. *)
Definition hundredths (m : positive) (e : Z) : N :=
  match e with
  | Z.neg k => Z.to_N ((200 * Z.pos m + 2 ^ Z.pos k) / 2 ^ (Z.pos k + 1))
  | _ => Z.to_N (100 * Z.pos m * 2 ^ e)
  end.

(** [10^21 <= m * 2^e] *)
Definition at_least_1e21 (m : positive) (e : Z) : bool :=
  match e with
  | Z.neg k => 10 ^ 21 * 2 ^ Z.pos k <=? Z.pos m
  | _ => 10 ^ 21 <=? Z.pos m * 2 ^ e
  end.

(** The digits of [n] padded with zeros to three, with a point before
    the last two. *)
Definition with_point (ds : jsstr) : jsstr :=
  let ds := replicate (3 - length ds) 48%N ++ ds in
  take (length ds - 2) ds ++ [46%N] ++ drop (length ds - 2) ds.

(** [x.toFixed(2)] (ECMA-262, 21.1.3.3): one string, with the sign in
    front of the digits of a negative number. *)
Definition toFixed2 (x : number) : piece :=
  match x with
  | S754_nan => Literal (js "NaN")
  | S754_infinity s => Literal (if s then js "-Infinity" else js "Infinity")
  | S754_zero _ => Literal (with_point (decimal 0))
  | S754_finite s m e =>
      if at_least_1e21 m e then NumberText (S754_finite s m e)
      else Literal ((if s then js "-" else [])
                    ++ with_point (decimal (hundredths m e)))
  end.

(** One row of the list. *)
Record row := mk_row {
  amountText : list piece;
  categoryText : option jsstr;
  noteText : option jsstr;
  onPress : async unit
}.

Definition renderExpense (item : Expense.t) : row :=
  mk_row [Literal (js "$"); toFixed2 (Expense.amount item)]
    (Expense.category item)
    (match Expense.note item with
     | Some n => if JsString.truthy n then Some n else None
     | None => None
     end)
    (deleteExpense (Expense.id item)).

(** [item.id.toString()]: the digits of a safe integer, and the engine's
    text of the nearest number beyond. *)
Definition keyExtractor (item : Expense.t) : piece :=
  let i := Expense.id item in
  if Z.abs i <? 2 ^ 53
  then Literal ((if i <? 0 then js "-" else []) ++ decimal (Z.abs_N i))
  else NumberText (JsNumber.of_Z i).

(** What [ExpenseScreen] returns: the chart when there is one, the
    values of the three fields, the rows of the [FlatList] with their
    keys, and whether the list shows [ListEmptyComponent]. *)
Record screen := mk_screen {
  chart : option (list Slice.t);
  amountField : jsstr;
  categoryField : jsstr;
  noteField : jsstr;
  list_rows : list (piece * row);
  emptyMessage : bool
}.

Definition render (h : hooks) : screen :=
  mk_screen
    (if (0 <? length (expenses h))%nat
     then Some (getCategoryTotals (expenses h)) else None)
    (amount h) (category h) (note h)
    ((fun item => (keyExtractor item, renderExpense item)) <$> expenses h)
    (match expenses h with [] => true | _ => false end).

End View.

(** ** The words of the specification *)

(** [a] was created after [b]. *)
Definition newer (a b : Expense.t) : Prop := Expense.id b < Expense.id a.

(** What the guards of [addExpense] reject. *)
Definition rejects (h : hooks) : bool :=
  let amountNumber := parseFloat (amount h) in
  JsNumber.isNaN amountNumber || JsNumber.leb amountNumber JsNumber.zero
  || negb (JsString.truthy (JsString.trim (category h))).

(** The row [addExpense] binds to the INSERT statement. *)
Definition submitted (h : hooks) : Db.row :=
  Db.mk_row (parseFloat (amount h)) (JsString.trim (category h))
    (if JsString.truthy (JsString.trim (note h))
     then Some (JsString.trim (note h)) else None).

Definition cleared (rows : list Expense.t) : hooks := mk_hooks rows [] [] [].

(** A number that is neither NaN nor below zero nor [-0]. *)
Definition nonneg (x : number) : bool :=
  match x with
  | S754_zero false | S754_infinity false | S754_finite false _ _ => true
  | _ => false
  end.

Definition fexp64 (e : Z) : Z := fexp JsNumber.prec JsNumber.emax e.

(** The integer part of a number (0 for NaN and the infinities). *)
Definition whole_part (x : number) : Z :=
  match x with
  | S754_finite s m e => cond_Zopp s (Z.shiftl (Z.pos m) e)
  | _ => 0
  end.

(** A positive whole number, as [Number.isInteger] has it. *)
Definition positive_whole (x : number) : Prop :=
  0 < whole_part x /\ x = JsNumber.of_Z (whole_part x).

(** The label a record is counted under: its category, or [Other] when
    the category is absent or empty. *)
Definition label (exp : Expense.t) : jsstr :=
  match Expense.category exp with
  | Some c => if JsString.truthy c then c else js "Other"
  | None => js "Other"
  end.

(** The distinct elements of a list, in the order of their first
    occurrence. *)
Fixpoint first_seen (ks : list jsstr) : list jsstr :=
  match ks with
  | [] => []
  | k :: ks' => k :: filter (fun x => x <> k) (first_seen ks')
  end.

(** The records of a group, in the order of the input. *)
Definition group (k : jsstr) (records : list Expense.t) : list Expense.t :=
  filter (fun exp => label exp = k) records.

(** A sum of numbers, taken from left to right starting from [0]. *)
Definition sum (xs : list number) : number :=
  fold_left JsNumber.add xs JsNumber.zero.

Definition group_total (k : jsstr) (records : list Expense.t) : number :=
  sum (Expense.amount <$> group k records).

(** The order of two array indices. *)
Definition index_order (a b : jsstr) : Prop :=
  exists m n, JsObject.array_index a = Some m
              /\ JsObject.array_index b = Some n /\ (m <= n)%N.

Definition Zsum (ns : list Z) : Z := foldr Z.add 0 ns.

(** Own properties produced by a function of the key. *)
Definition table_of (f : jsstr -> JsObject.prim) (ks : list jsstr) : JsObject.t :=
  (fun k => (k, f k)) <$> ks.

(** The object built by the loop of [getCategoryTotals]. *)
Definition totals_of (l : list Expense.t) : JsObject.t :=
  table_of (fun k => JsObject.PNum (group_total k l)) (first_seen (label <$> l)).

(** The whole amount of a record, and of a list of records. *)
Definition whole (exp : Expense.t) : Z := whole_part (Expense.amount exp).
Definition whole_total (l : list Expense.t) : Z := Zsum (whole <$> l).

(** A record as a row of the table gives it. *)
Definition priced (i : Z) (a c : string) : Expense.t :=
  Expense.mk i (parseFloat (js a)) (Some (js c)) None.

(** ** What the user does *)

Inductive op :=
| Add (a c n : jsstr)
| Delete (i : Z).

(** The three [TextInput]s ([onChangeText] is the setter of its hook). *)
Definition typed (a c n : jsstr) (w : world) : world :=
  final ((setAmount a ;; setCategory c ;; setNote n) w).

Definition press (o : op) (w : world) : world :=
  match o with
  | Add a c n => final (addExpense (typed a c n w))
  | Delete i => final (deleteExpense i w)
  end.

Definition run (ops : list op) (w : world) : world :=
  fold_left (fun w o => press o w) ops w.

(** The component mounted [n] times over the same database file. *)
Definition mounted (n : nat) (w : world) : world :=
  Nat.iter n (fun w => final (setup w)) w.

(** Ids handed out so far stay with their rows: after any operations, a
    row whose id is not above the old counter is a row of the old table. *)
Definition counted (tb : Db.table) : Prop :=
  forall k, is_Some (Db.rows tb !! k) -> k <= Db.sequence tb.


(** The list on the screen is the list in the table. *)
Definition synced (w : world) : Prop :=
  Db.select_all_desc (db w) = inr (expenses (ui w)).

(** A text that neither begins nor ends with whitespace. *)
Definition trimmed (s : jsstr) : Prop :=
  (forall c, head s = Some c -> JsString.is_white_space c = false)
  /\ (forall c, last s = Some c -> JsString.is_white_space c = false).

(** A row as [addExpense] stores them. *)
Definition well_formed (r : Db.row) : Prop :=
  JsNumber.ltb JsNumber.zero (Db.row_amount r) = true
  /\ Db.row_category r <> []
  /\ trimmed (Db.row_category r)
  /\ forall n, Db.row_note r = Some n -> n <> [] /\ trimmed n.

Definition tidy (d : Db.t) : Prop :=
  forall tb k r, d = Some tb -> Db.rows tb !! k = Some r -> well_formed r.

(** An add that passes the guards of [addExpense]. *)
Definition accepted_add (o : op) : bool :=
  match o with
  | Add a c n => negb (rejects (mk_hooks [] a c n))
  | Delete _ => false
  end.

(** A text of white space only. *)
Definition blank (s : jsstr) : Prop :=
  Forall (fun c => JsString.is_white_space c = true) s.

(** A text that does not continue a decimal literal: it does not begin
    with a digit, a point or an exponent mark. *)
Definition ends_number (r : jsstr) : Prop :=
  forall c, head r = Some c ->
    ParseFloat.is_digit c = false /\ c <> 46%N /\ c <> 101%N /\ c <> 69%N.

(** The keys an assignment [o[k] = p] leaves. *)
Definition keys_after (k : jsstr) (ks : list jsstr) : list jsstr :=
  if decide (k = js "__proto__") then ks
  else if decide (k ∈ ks) then ks else ks ++ [k].

(** ** Sample states *)

Definition sample_table : Db.table :=
  Db.mk_table
    (<[3 := Db.mk_row (parseFloat (js "5")) (js "Food") None]>
       (<[1 := Db.mk_row (parseFloat (js "12.50")) (js "Food") (Some (js "lunch"))]> ∅))
    3.

Definition sample_world (a c n : string) : world :=
  mk_world (Some sample_table) (mk_hooks [] (js a) (js c) (js n)) [].

Definition fresh_world (a c n : string) : world :=
  mk_world None (mk_hooks [] (js a) (js c) (js n)) [].

(** * Properties *)

(** ** The table *)

Section TableFacts.

Import Db.

#[local] Instance id_desc_trans : Transitive id_desc.
Proof. unfold id_desc; intros a b c; lia. Qed.

#[local] Instance id_desc_total : Total id_desc.
Proof. unfold id_desc; intros a b; lia. Qed.

#[local] Instance newer_antisymm : AntiSymm (=) newer.
Proof. unfold newer; intros a b; lia. Qed.

Lemma to_expense_id (l : list (Z * row)) :
  Expense.id <$> (to_expense <$> l) = l.*1.
Proof. induction l as [|[k r] l IH]; [done |]. by rewrite !fmap_cons, IH. Qed.

Lemma elem_of_order_by_id_desc (m : gmap Z row) (x : Expense.t) :
  x ∈ order_by_id_desc m <-> exists k r, m !! k = Some r /\ x = to_expense (k, r).
Proof.
  unfold order_by_id_desc. rewrite merge_sort_Permutation, list_elem_of_fmap.
  split.
  - intros [[k r] [-> Hin]]. apply elem_of_map_to_list in Hin. eauto.
  - intros (k & r & Hkr & ->). exists (k, r). split; [done |].
    by apply elem_of_map_to_list.
Qed.

Lemma NoDup_order_by_id_desc (m : gmap Z row) :
  NoDup (Expense.id <$> order_by_id_desc m).
Proof.
  unfold order_by_id_desc. rewrite merge_sort_Permutation, to_expense_id.
  apply NoDup_fst_map_to_list.
Qed.

Lemma StronglySorted_newer (l : list Expense.t) :
  StronglySorted id_desc l -> NoDup (Expense.id <$> l) -> StronglySorted newer l.
Proof.
  induction 1 as [|a l Hl IH Ha]; intros Hnd; [constructor |].
  rewrite fmap_cons in Hnd. apply NoDup_cons in Hnd as [Hnotin Hnd].
  constructor; [by apply IH |].
  apply Forall_forall. intros b Hb.
  assert (Expense.id b <= Expense.id a)
    by (rewrite Forall_forall in Ha; apply (Ha b Hb)).
  assert (Expense.id b <> Expense.id a).
  { intros Heq. apply Hnotin. rewrite <- Heq. by apply list_elem_of_fmap_2. }
  unfold newer. lia.
Qed.

Lemma order_by_id_desc_sorted (m : gmap Z row) :
  StronglySorted newer (order_by_id_desc m).
Proof.
  apply StronglySorted_newer; [| apply NoDup_order_by_id_desc].
  apply StronglySorted_merge_sort; apply _.
Qed.

Lemma StronglySorted_newer_NoDup (l : list Expense.t) :
  StronglySorted newer l -> NoDup l.
Proof.
  induction 1 as [|a l Hl IH Ha]; constructor; [| done].
  intros Hin. rewrite Forall_forall in Ha.
  apply Ha in Hin. unfold newer in Hin. lia.
Qed.

(** The result of the query is the one list that holds the rows of the
    table in strictly descending order of id. *)
Lemma order_by_id_desc_unique (m : gmap Z row) (l : list Expense.t) :
  StronglySorted newer l ->
  (forall x, x ∈ l <-> exists k r, m !! k = Some r /\ x = to_expense (k, r)) ->
  l = order_by_id_desc m.
Proof.
  intros Hl Hin.
  apply (StronglySorted_unique newer); [done | apply order_by_id_desc_sorted |].
  apply NoDup_Permutation.
  - by apply StronglySorted_newer_NoDup.
  - apply StronglySorted_newer_NoDup, order_by_id_desc_sorted.
  - intros x. by rewrite Hin, elem_of_order_by_id_desc.
Qed.

Lemma order_by_id_desc_empty : order_by_id_desc ∅ = [].
Proof. unfold order_by_id_desc. by rewrite map_to_list_empty. Qed.

Lemma order_by_id_desc_insert (m : gmap Z row) (i : Z) (r : row) :
  (forall k, is_Some (m !! k) -> k < i) ->
  order_by_id_desc (<[i := r]> m) = to_expense (i, r) :: order_by_id_desc m.
Proof.
  intros Hfresh. symmetry. apply order_by_id_desc_unique.
  - constructor; [apply order_by_id_desc_sorted |].
    apply Forall_forall. intros x Hx.
    apply elem_of_order_by_id_desc in Hx as (k & r' & Hk & ->).
    unfold newer; simpl. apply Hfresh; eauto.
  - intros x. rewrite elem_of_cons, elem_of_order_by_id_desc. split.
    + intros [-> | (k & r' & Hk & ->)].
      * exists i, r. by rewrite lookup_insert_eq.
      * exists k, r'. split; [| done].
        rewrite lookup_insert_ne; [done |].
        intros <-. specialize (Hfresh i (ltac:(eauto))). lia.
    + intros (k & r' & Hk & ->). destruct (decide (i = k)) as [<- | Hne].
      * rewrite lookup_insert_eq in Hk. left. congruence.
      * rewrite lookup_insert_ne in Hk by done. right; eauto.
Qed.

Lemma StronglySorted_filter {A} (R : relation A) (P : A -> Prop)
    `{forall x, Decision (P x)} (l : list A) :
  StronglySorted R l -> StronglySorted R (filter P l).
Proof.
  induction 1 as [|a l Hl IH Ha]; [constructor |].
  rewrite filter_cons. destruct (decide (P a)); [| done].
  constructor; [done |]. apply Forall_forall. intros x Hx.
  apply list_elem_of_filter in Hx as [_ Hx].
  rewrite Forall_forall in Ha. by apply Ha.
Qed.

Lemma filter_all {A} (P : A -> Prop) `{forall x, Decision (P x)} (l : list A) :
  Forall P l -> filter P l = l.
Proof.
  induction 1 as [|a l Ha Hl IH]; [done |].
  by rewrite filter_cons_True, IH.
Qed.

Lemma order_by_id_desc_delete (m : gmap Z row) (i : Z) :
  order_by_id_desc (delete i m)
  = filter (fun x => Expense.id x <> i) (order_by_id_desc m).
Proof.
  symmetry. apply order_by_id_desc_unique.
  - apply StronglySorted_filter, order_by_id_desc_sorted.
  - intros x. rewrite list_elem_of_filter, elem_of_order_by_id_desc. split.
    + intros [Hne (k & r & Hk & ->)]. exists k, r. split; [| done].
      by rewrite lookup_delete_ne by (intros <-; by apply Hne).
    + intros (k & r & Hk & ->). destruct (decide (i = k)) as [<- | Hne].
      * by rewrite lookup_delete_eq in Hk.
      * rewrite lookup_delete_ne in Hk by done. split; [| eauto].
        simpl. congruence.
Qed.

Lemma largest_ge (ks : list Z) (k : Z) :
  k ∈ ks -> exists j, largest ks = Some j /\ k <= j.
Proof.
  induction 1 as [k ks | k k' ks Hin IH]; simpl.
  - destruct (largest ks); eexists; split; [done | lia | done | lia].
  - destruct IH as (j & -> & Hj). eexists; split; [done | lia].
Qed.

(** AUTOINCREMENT picks a rowid above every row of the table and above
    the counter. *)
Lemma next_rowid_above_rows (tb : table) (k : Z) :
  is_Some (rows tb !! k) -> k < next_rowid tb.
Proof.
  intros [r Hk]. unfold next_rowid.
  assert (Hin : k ∈ (map_to_list (rows tb)).*1).
  { apply list_elem_of_fmap. exists (k, r). split; [done |].
    by apply elem_of_map_to_list. }
  apply largest_ge in Hin as (j & -> & Hj). lia.
Qed.

Lemma next_rowid_above_sequence (tb : table) : sequence tb < next_rowid tb.
Proof. unfold next_rowid. lia. Qed.

End TableFacts.

(** ** Numbers *)

Lemma iter_pos_invariant {A} (P : A -> Prop) (f : A -> A) :
  (forall x, P x -> P (f x)) -> forall n x, P x -> P (SpecFloat.iter_pos f n x).
Proof.
  intros Hf. induction n as [n IH | n IH |]; intros x Hx; simpl; auto.
Qed.

Lemma shr_1_nonneg mrs : 0 <= shr_m mrs -> 0 <= shr_m (shr_1 mrs).
Proof. destruct mrs as [[|[p|p|]|p] r s]; simpl; lia. Qed.

Lemma shr_nonneg mrs e n : 0 <= shr_m mrs -> 0 <= shr_m (shr mrs e n).1.
Proof.
  intros H. destruct n; simpl; try done.
  by apply (iter_pos_invariant (fun mrs => 0 <= shr_m mrs)), H; apply shr_1_nonneg.
Qed.

Lemma shr_fexp_nonneg p e m ex l : 0 <= m -> 0 <= shr_m (shr_fexp p e m ex l).1.
Proof.
  intros H. unfold shr_fexp. apply shr_nonneg. by destruct l as [|[]].
Qed.

Lemma round_nearest_even_nonneg m l : 0 <= m -> 0 <= round_nearest_even m l.
Proof. destruct l as [|[]]; simpl; try lia. destruct (Z.even m); lia. Qed.

Lemma binary_round_aux_nonneg p e m ex l :
  0 <= m -> nonneg (binary_round_aux p e false m ex l) = true.
Proof.
  intros H. unfold binary_round_aux.
  pose proof (shr_fexp_nonneg p e m ex l H) as H1.
  destruct (shr_fexp p e m ex l) as [mrs' e'].
  pose proof (shr_fexp_nonneg p e _ e' loc_Exact
    (round_nearest_even_nonneg _ (loc_of_shr_record mrs') H1)) as H2.
  destruct (shr_fexp p e _ e' loc_Exact) as [mrs'' e'']. simpl in *.
  destruct (shr_m mrs''); [done | | lia]. by destruct (_ <=? _).
Qed.

Lemma add_nonneg x y :
  nonneg x = true -> nonneg y = true -> nonneg (JsNumber.add x y) = true.
Proof.
  destruct x as [[]|[]| |[] mx ex], y as [[]|[]| |[] my ey]; try done.
  intros _ _. unfold JsNumber.add, SFadd, binary_normalize, binary_round.
  destruct (shl_align mx _ _) as [a ?], (shl_align my _ _) as [b ?].
  cbn [cond_Zopp fst]. change (Z.pos a + Z.pos b) with (Z.pos (a + b)). cbv iota.
  match goal with |- context [shl_align ?m ?e ?e'] => destruct (shl_align m e e') end.
  by apply binary_round_aux_nonneg.
Qed.

Lemma iter_xO_value (p k : positive) :
  Z.pos (Pos.iter xO p k) = Z.pos p * 2 ^ Z.pos k.
Proof.
  induction k as [|k IH] using Pos.peano_ind.
  - simpl. lia.
  - rewrite Pos.iter_succ, Pos2Z.inj_succ, Z.pow_succ_r by lia.
    rewrite Pos2Z.inj_xO, IH. lia.
Qed.

Lemma digits2_size (p : positive) : digits2_pos p = Pos.size p.
Proof. induction p as [p IH | p IH |]; simpl; by rewrite ?IH. Qed.

Lemma digits2_bounds (p : positive) :
  2 ^ (Z.pos (digits2_pos p) - 1) <= Z.pos p < 2 ^ Z.pos (digits2_pos p).
Proof.
  rewrite digits2_size. split.
  - pose proof (Pos.size_le p) as H.
    apply Pos2Z.pos_le_pos in H. rewrite Pos2Z.inj_pow in H.
    replace (Z.pos (Pos.size p)) with (Z.succ (Z.pos (Pos.size p) - 1)) in H by lia.
    rewrite Z.pow_succ_r in H by lia. lia.
  - pose proof (Pos.size_gt p) as H.
    apply Pos2Z.pos_lt_pos in H. by rewrite Pos2Z.inj_pow in H.
Qed.

Lemma digits2_unique (p : positive) (d : Z) :
  2 ^ (d - 1) <= Z.pos p < 2 ^ d -> Z.pos (digits2_pos p) = d.
Proof.
  intros [Hlo Hhi]. pose proof (digits2_bounds p) as [Hlo' Hhi'].
  assert (0 < d).
  { destruct (Z_lt_le_dec 0 d) as [|Hd]; [done |].
    assert (2 ^ d <= 2 ^ 0) by (destruct (Z_lt_le_dec d 0);
      [rewrite Z.pow_neg_r by done; simpl; lia | apply Z.pow_le_mono_r; lia]).
    simpl in *. lia. }
  destruct (Z_lt_le_dec (Z.pos (digits2_pos p)) d) as [Hlt | Hge].
  - assert (2 ^ Z.pos (digits2_pos p) <= 2 ^ (d - 1))
      by (apply Z.pow_le_mono_r; lia). lia.
  - destruct (Z_lt_le_dec d (Z.pos (digits2_pos p))) as [Hlt | Hle]; [| lia].
    assert (2 ^ d <= 2 ^ (Z.pos (digits2_pos p) - 1))
      by (apply Z.pow_le_mono_r; lia). lia.
Qed.

Lemma iter_shr_1_exact (n T : positive) :
  SpecFloat.iter_pos shr_1 n (Build_shr_record (Z.pos (Pos.iter xO T n)) false false)
  = Build_shr_record (Z.pos T) false false.
Proof.
  revert T. induction n as [n IH | n IH |]; intros T; simpl.
  - by rewrite !IH.
  - by rewrite !IH.
  - done.
Qed.

Lemma fexp64_eq e : fexp64 e = Z.max (e - 53) (-1074).
Proof. reflexivity. Qed.

Lemma shr_fexp_canonical (T : positive) (e : Z) :
  Z.pos (digits2_pos T) = 53 -> -1074 <= e ->
  shr_fexp JsNumber.prec JsNumber.emax (Z.pos T) e loc_Exact
  = (Build_shr_record (Z.pos T) false false, e).
Proof.
  intros Hd He. unfold shr_fexp. fold (fexp64 (Zdigits2 (Z.pos T) + e)).
  rewrite fexp64_eq. cbn [Zdigits2]. rewrite Hd.
  by replace (Z.max (53 + e - 53) (-1074) - e) with 0 by lia.
Qed.

Lemma in_range (e : Z) :
  e <= 971 -> (e <=? JsNumber.emax - JsNumber.prec) = true.
Proof. intros He. apply Z.leb_le. unfold JsNumber.emax, JsNumber.prec. lia. Qed.

(** A mantissa of 53 bits within the exponent range is its own rounding. *)
Lemma binary_round_aux_canonical (T : positive) (e : Z) :
  Z.pos (digits2_pos T) = 53 -> -1074 <= e <= 971 ->
  binary_round_aux JsNumber.prec JsNumber.emax false (Z.pos T) e loc_Exact
  = S754_finite false T e.
Proof.
  intros Hd He. unfold binary_round_aux.
  rewrite shr_fexp_canonical by (done || lia).
  cbn [shr_m loc_of_shr_record round_nearest_even].
  rewrite shr_fexp_canonical by (done || lia). cbn [shr_m].
  by rewrite in_range by lia.
Qed.

Lemma digits2_iter_xO (T n : positive) (d : Z) :
  Z.pos (digits2_pos T) = d ->
  Z.pos (digits2_pos (Pos.iter xO T n)) = d + Z.pos n.
Proof.
  intros Hd. apply digits2_unique. rewrite iter_xO_value.
  pose proof (digits2_bounds T) as [Hlo Hhi]. rewrite Hd in Hlo, Hhi.
  replace (d + Z.pos n - 1) with (d - 1 + Z.pos n) by lia.
  rewrite !Z.pow_add_r by lia.
  assert (0 < 2 ^ Z.pos n) by (apply Z.pow_pos_nonneg; lia). nia.
Qed.

(** Rounding a number that a mantissa of 53 bits represents is exact. *)
Lemma binary_round_exact (M T : positive) (E e : Z) :
  Z.pos (digits2_pos T) = 53 -> -1074 <= e <= 971 ->
  (E <= e /\ Z.pos M = Z.pos T * 2 ^ (e - E))
  \/ (e <= E /\ Z.pos T = Z.pos M * 2 ^ (E - e)) ->
  binary_round JsNumber.prec JsNumber.emax false M E = S754_finite false T e.
Proof.
  intros Hd He Hval. unfold binary_round.
  fold (fexp64 (Z.pos (digits2_pos M) + E)). rewrite fexp64_eq.
  destruct (Z.compare_spec E e) as [-> | Hlt | Hgt].
  - assert (M = T) as ->.
    { destruct Hval as [[_ H] | [_ H]]; rewrite Z.sub_diag in H; simpl in H; lia. }
    rewrite Hd.
    unfold shl_align. replace (Z.max (53 + e - 53) (-1074) - e) with 0 by lia.
    by apply binary_round_aux_canonical.
  - destruct Hval as [[_ Hval] | [? _]]; [| lia].
    destruct (e - E) as [|n|n] eqn:Hn; try lia.
    rewrite <- iter_xO_value in Hval. injection Hval as ->.
    pose proof (digits2_iter_xO T n 53 Hd) as HdM.
    rewrite HdM. unfold shl_align.
    replace (Z.max (53 + Z.pos n + E - 53) (-1074) - E) with (Z.pos n) by lia.
    unfold binary_round_aux, shr_fexp at 1.
    fold (fexp64 (Zdigits2 (Z.pos (Pos.iter xO T n)) + E)). rewrite fexp64_eq.
    cbn [Zdigits2]. rewrite HdM.
    replace (Z.max (53 + Z.pos n + E - 53) (-1074) - E) with (Z.pos n) by lia.
    cbn [shr shr_record_of_loc]. rewrite iter_shr_1_exact.
    cbn [shr_m loc_of_shr_record round_nearest_even].
    replace (E + Z.pos n) with e by lia.
    rewrite shr_fexp_canonical by (done || lia). cbn [shr_m].
    by rewrite in_range by lia.
  - destruct Hval as [[? _] | [_ Hval]]; [lia |].
    destruct (E - e) as [|n|n] eqn:Hn; try lia.
    rewrite <- iter_xO_value in Hval. injection Hval as ->.
    assert (HdM : Z.pos (digits2_pos M) = 53 - Z.pos n).
    { pose proof (digits2_iter_xO M n _ eq_refl). lia. }
    rewrite HdM. unfold shl_align.
    replace (Z.max (53 - Z.pos n + E - 53) (-1074) - E) with (Z.neg n) by lia.
    replace (Z.max (53 - Z.pos n + E - 53) (-1074)) with e by lia.
    by apply binary_round_aux_canonical.
Qed.

(** The number of a positive integer below [2^53]. *)
Lemma of_Z_pos (n : positive) :
  Z.pos n < 2 ^ 53 ->
  exists T : positive,
    JsNumber.of_Z (Z.pos n)
    = S754_finite false T (Z.pos (digits2_pos n) - 53)
    /\ Z.pos (digits2_pos T) = 53
    /\ Z.pos T = Z.pos n * 2 ^ (53 - Z.pos (digits2_pos n)).
Proof.
  intros Hn. pose proof (digits2_bounds n) as [Hlo Hhi].
  assert (Hd : Z.pos (digits2_pos n) <= 53).
  { destruct (Z_lt_le_dec 53 (Z.pos (digits2_pos n))) as [Hgt |]; [| done].
    assert (2 ^ 53 <= 2 ^ (Z.pos (digits2_pos n) - 1))
      by (apply Z.pow_le_mono_r; lia). lia. }
  set (d := Z.pos (digits2_pos n)) in *.
  assert (HT : 0 < Z.pos n * 2 ^ (53 - d))
    by (assert (0 < 2 ^ (53 - d)) by (apply Z.pow_pos_nonneg; lia); nia).
  destruct (Z.pos n * 2 ^ (53 - d)) as [|T|] eqn:HTeq; try lia.
  assert (HdT : Z.pos (digits2_pos T) = 53).
  { apply digits2_unique. rewrite <- HTeq. change (53 - 1) with 52.
    replace 52 with (d - 1 + (53 - d)) at 1 by lia.
    replace 53 with (d + (53 - d)) at 4 by lia.
    rewrite !Z.pow_add_r by lia.
    assert (0 < 2 ^ (53 - d)) by (apply Z.pow_pos_nonneg; lia). nia. }
  exists T. split; [| done].
  unfold JsNumber.of_Z, binary_normalize.
  apply binary_round_exact; [done | lia |].
  right. split; [lia |]. replace (0 - (d - 53)) with (53 - d) by lia. by rewrite HTeq.
Qed.

Lemma digits2_mono (p q : positive) :
  (p <= q)%positive -> Z.pos (digits2_pos p) <= Z.pos (digits2_pos q).
Proof.
  intros Hle. pose proof (digits2_bounds p) as [Hlo _].
  pose proof (digits2_bounds q) as [_ Hhi].
  destruct (Z_lt_le_dec (Z.pos (digits2_pos q)) (Z.pos (digits2_pos p)))
    as [Hlt |]; [| done].
  assert (2 ^ Z.pos (digits2_pos q) <= 2 ^ (Z.pos (digits2_pos p) - 1))
    by (apply Z.pow_le_mono_r; lia). lia.
Qed.

Lemma shl_align_value (m : positive) (e e' : Z) :
  e' <= e -> Z.pos (shl_align m e e').1 = Z.pos m * 2 ^ (e - e').
Proof.
  intros Hle. unfold shl_align.
  destruct (e' - e) as [|k|k] eqn:Hk; try lia.
  - replace (e - e') with 0 by lia. simpl. lia.
  - cbn [fst]. rewrite iter_xO_value. f_equal. f_equal. lia.
Qed.

(** Adding two positive integers whose sum is below [2^53] is exact. *)
Lemma add_of_Z_pos (a b : positive) :
  Z.pos a + Z.pos b < 2 ^ 53 ->
  JsNumber.add (JsNumber.of_Z (Z.pos a)) (JsNumber.of_Z (Z.pos b))
  = JsNumber.of_Z (Z.pos a + Z.pos b).
Proof.
  intros Hsum.
  destruct (of_Z_pos a) as (Ta & -> & HdTa & HTa); [lia |].
  destruct (of_Z_pos b) as (Tb & -> & HdTb & HTb); [lia |].
  change (Z.pos a + Z.pos b) with (Z.pos (a + b)) in *.
  destruct (of_Z_pos (a + b)) as (T & -> & HdT & HT); [lia |].
  pose proof (digits2_mono a (a + b) ltac:(lia)) as Hda.
  pose proof (digits2_mono b (a + b) ltac:(lia)) as Hdb.
  pose proof (digits2_bounds (a + b)) as [Hlo Hhi].
  assert (Hd : Z.pos (digits2_pos (a + b)) <= 53).
  { destruct (Z_lt_le_dec 53 (Z.pos (digits2_pos (a + b)))) as [Hgt |]; [| done].
    assert (2 ^ 53 <= 2 ^ (Z.pos (digits2_pos (a + b)) - 1))
      by (apply Z.pow_le_mono_r; lia). lia. }
  set (da := Z.pos (digits2_pos a)) in *.
  set (db := Z.pos (digits2_pos b)) in *.
  set (d := Z.pos (digits2_pos (a + b))) in *.
  unfold JsNumber.add, SFadd. cbn [cond_Zopp].
  set (ez := Z.min (da - 53) (db - 53)).
  pose proof (shl_align_value Ta (da - 53) ez ltac:(lia)) as HA.
  pose proof (shl_align_value Tb (db - 53) ez ltac:(lia)) as HB.
  destruct (shl_align Ta _ ez) as [A ?], (shl_align Tb _ ez) as [B ?].
  cbn [fst] in *. change (Z.pos A + Z.pos B) with (Z.pos (A + B)).
  unfold binary_normalize. apply binary_round_exact; [done | lia |].
  left. split; [lia |].
  rewrite Pos2Z.inj_add, HA, HB, HTa, HTb, HT, Pos2Z.inj_add.
  assert (Hpow : forall x y, 0 <= x -> 0 <= y -> 2 ^ x * 2 ^ y = 2 ^ (x + y))
    by (intros; by rewrite Z.pow_add_r).
  rewrite <- !Z.mul_assoc, !Hpow by lia.
  replace (53 - da + (da - 53 - ez)) with (53 - d + (d - 53 - ez)) by lia.
  replace (53 - db + (db - 53 - ez)) with (53 - d + (d - 53 - ez)) by lia.
  lia.
Qed.

(** ** The handlers *)

(** The guard of [addExpense] on the amount lets through exactly the
    numbers greater than zero. *)
Lemma amount_guard (x : number) :
  JsNumber.isNaN x || JsNumber.leb x JsNumber.zero = false
  <-> JsNumber.ltb JsNumber.zero x = true.
Proof. destruct x as [[]|[]| |[] m e]; compute; intuition congruence. Qed.

Lemma truthy_trim (s : jsstr) : JsString.truthy s = true <-> s <> [].
Proof. destruct s; simpl; intuition congruence. Qed.

Lemma addExpense_rejects (w : world) :
  rejects (ui w) = true -> addExpense w = Resolved tt w.
Proof.
  unfold rejects, addExpense, mbind, async_bind, read. intros H.
  destruct (JsNumber.isNaN _ || JsNumber.leb _ _); [done |].
  simpl in H. by rewrite H.
Qed.

Lemma addExpense_accepts (w : world) (tb : Db.table) :
  db w = Some tb ->
  rejects (ui w) = false ->
  let i := Db.next_rowid tb in
  let r := submitted (ui w) in
  let rows := Db.to_expense (i, r) :: Db.order_by_id_desc (Db.rows tb) in
  addExpense w =
  Resolved tt
    (mk_world (Some (Db.mk_table (<[i := r]> (Db.rows tb)) i))
       (cleared rows)
       (calls w ++ [RunInsert (Db.row_amount r) (Db.row_category r) (Db.row_note r);
                    SetAmount []; SetCategory []; SetNote [];
                    GetAll; SetExpenses rows])).
Proof.
  unfold rejects. intros Hdb H.
  apply orb_false_iff in H as [Hamount Hcategory].
  apply negb_false_iff in Hcategory.
  assert (Hnan : JsNumber.isNaN (parseFloat (amount (ui w))) = false)
    by (by apply orb_false_iff in Hamount as [? _]).
  unfold addExpense, mbind, async_bind, read.
  rewrite Hamount, Hcategory. cbn [negb].
  unfold runAsync_insert, setAmount, setCategory, setNote, detached,
    loadExpenses, getAllAsync, setExpenses, statement, setter, mbind,
    async_bind, mret, async_ret, log, set_db, final, Db.insert,
    Db.select_all_desc.
  cbn [db ui calls]. rewrite Hdb, Hnan. cbn [db ui calls Db.rows].
  rewrite order_by_id_desc_insert by apply next_rowid_above_rows.
  cbn [expenses amount category note]. unfold cleared, submitted; simpl.
  by rewrite <- !app_assoc.
Qed.

Lemma deleteExpense_runs (w : world) (tb : Db.table) (i : Z) :
  db w = Some tb ->
  let rows := filter (fun x => Expense.id x <> i) (Db.order_by_id_desc (Db.rows tb)) in
  deleteExpense i w =
  Resolved tt
    (mk_world (Some (Db.mk_table (delete i (Db.rows tb)) (Db.sequence tb)))
       (mk_hooks rows (amount (ui w)) (category (ui w)) (note (ui w)))
       (calls w ++ [RunDelete i; GetAll; SetExpenses rows])).
Proof.
  intros Hdb.
  unfold deleteExpense, runAsync_delete, detached, loadExpenses, getAllAsync,
    setExpenses, statement, setter, mbind, async_bind, mret, async_ret, log,
    set_db, final, Db.delete_id, Db.select_all_desc.
  cbn [db ui calls]. rewrite Hdb. cbn [db ui calls Db.rows].
  rewrite order_by_id_desc_delete. by rewrite <- !app_assoc.
Qed.

Lemma loadExpenses_runs (w : world) (tb : Db.table) :
  db w = Some tb ->
  let rows := Db.order_by_id_desc (Db.rows tb) in
  loadExpenses w =
  Resolved tt
    (mk_world (db w)
       (mk_hooks rows (amount (ui w)) (category (ui w)) (note (ui w)))
       (calls w ++ [GetAll; SetExpenses rows])).
Proof.
  intros Hdb.
  unfold loadExpenses, getAllAsync, setExpenses, statement, setter, mbind,
    async_bind, log, Db.select_all_desc.
  cbn [db ui calls]. rewrite Hdb. cbn [db ui calls].
  by rewrite <- !app_assoc.
Qed.

Lemma setup_runs (w : world) :
  let d := Db.create_if_not_exists (db w) in
  exists tb, d = Some tb /\
  setup w =
  Resolved tt
    (mk_world d
       (mk_hooks (Db.order_by_id_desc (Db.rows tb))
          (amount (ui w)) (category (ui w)) (note (ui w)))
       (calls w ++ [ExecCreateTable; GetAll;
                    SetExpenses (Db.order_by_id_desc (Db.rows tb))])).
Proof.
  assert (exists tb, Db.create_if_not_exists (db w) = Some tb) as [tb Htb]
    by (destruct (db w); simpl; eauto).
  exists tb. split; [done |].
  unfold setup, execAsync_create, statement, mbind, async_bind, mret,
    async_ret, log, set_db.
  cbn [db ui calls].
  rewrite (loadExpenses_runs _ tb) by done. cbn [db ui calls].
  by rewrite <- !app_assoc.
Qed.

Lemma typed_db a c n w : db (typed a c n w) = db w.
Proof. reflexivity. Qed.

(** No operation lowers the AUTOINCREMENT counter, and none drops the
    table. *)
Lemma press_sequence (o : op) (w : world) (tb : Db.table) :
  db w = Some tb ->
  exists tb', db (press o w) = Some tb' /\ Db.sequence tb <= Db.sequence tb'.
Proof.
  intros Hdb. destruct o as [a c n | i]; simpl.
  - destruct (rejects (ui (typed a c n w))) eqn:Hrej.
    + rewrite addExpense_rejects by done. exists tb. split; [done | lia].
    + rewrite (addExpense_accepts _ tb) by done. eexists. split; [done |].
      simpl. pose proof (next_rowid_above_sequence tb). lia.
  - rewrite (deleteExpense_runs _ tb) by done. eexists. split; [done |].
    simpl. lia.
Qed.

Lemma run_sequence (ops : list op) (w : world) (tb : Db.table) :
  db w = Some tb ->
  exists tb', db (run ops w) = Some tb' /\ Db.sequence tb <= Db.sequence tb'.
Proof.
  revert w tb. induction ops as [|o ops IH]; intros w tb Hdb; simpl.
  - exists tb. split; [done | lia].
  - destruct (press_sequence o w tb Hdb) as (tb1 & Hdb1 & Hle1).
    destruct (IH _ _ Hdb1) as (tb2 & Hdb2 & Hle2).
    exists tb2. split; [done | lia].
Qed.



Lemma accepted (h : hooks) :
  JsNumber.ltb JsNumber.zero (parseFloat (amount h)) = true ->
  JsString.trim (category h) <> [] ->
  rejects h = false.
Proof.
  intros Ha Hc. unfold rejects.
  apply amount_guard in Ha. apply truthy_trim in Hc. by rewrite Ha, Hc.
Qed.

(** ** The object [totals] *)

Section TotalsFacts.

Import JsObject.

Implicit Types (o : JsObject.t) (k c : jsstr) (p : prim) (ks : list jsstr).

Lemma eqb_eq k c : JsString.eqb k c = true <-> k = c.
Proof. unfold JsString.eqb. apply bool_decide_eq_true. Qed.

Lemma eqb_neq k c : JsString.eqb k c = false <-> k <> c.
Proof. unfold JsString.eqb. apply bool_decide_eq_false. Qed.

Lemma elem_of_first_seen ks k : k ∈ first_seen ks <-> k ∈ ks.
Proof.
  induction ks as [|k' ks IH]; simpl; [done |].
  rewrite !elem_of_cons, list_elem_of_filter, IH.
  destruct (decide (k = k')); tauto.
Qed.

Lemma NoDup_first_seen ks : NoDup (first_seen ks).
Proof.
  induction ks as [|k ks IH]; simpl; constructor.
  - rewrite list_elem_of_filter. tauto.
  - by apply NoDup_filter.
Qed.

Lemma first_seen_snoc ks c :
  first_seen (ks ++ [c])
  = if decide (c ∈ ks) then first_seen ks else first_seen ks ++ [c].
Proof.
  induction ks as [|k ks IH].
  - destruct (decide (c ∈ [])) as [Hin |]; [by apply elem_of_nil in Hin | done].
  - cbn [app first_seen]. rewrite IH.
    destruct (decide (c ∈ ks)) as [Hin | Hnotin].
    + by rewrite decide_True by (by right).
    + rewrite filter_app. destruct (decide (c = k)) as [-> | Hne].
      * rewrite decide_True by left.
        rewrite (filter_cons_False _ k) by tauto.
        by rewrite filter_nil, app_nil_r.
      * rewrite decide_False by (rewrite elem_of_cons; tauto).
        by rewrite (filter_cons_True _ c) by done.
Qed.

Lemma own_table_of f ks c :
  own (table_of f ks) c = if decide (c ∈ ks) then Some (f c) else None.
Proof.
  induction ks as [|k ks IH]; [done |].
  unfold table_of. rewrite fmap_cons. cbn [own].
  destruct (JsString.eqb c k) eqn:Heq.
  - apply eqb_eq in Heq as ->. by rewrite decide_True by left.
  - apply eqb_neq in Heq. fold (table_of f ks). rewrite IH.
    destruct (decide (c ∈ ks)).
    + by rewrite decide_True by (by right).
    + by rewrite decide_False by (rewrite elem_of_cons; tauto).
Qed.

Lemma define_fresh f ks c p :
  c ∉ ks -> define (table_of f ks) c p = table_of f ks ++ [(c, p)].
Proof.
  induction ks as [|k ks IH]; intros Hc; [done |].
  apply not_elem_of_cons in Hc as [Hne Hc].
  unfold table_of. rewrite fmap_cons. cbn [define].
  apply eqb_neq in Hne as ->. fold (table_of f ks). by rewrite IH.
Qed.

Lemma table_of_ext f g ks :
  (forall k, k ∈ ks -> f k = g k) -> table_of f ks = table_of g ks.
Proof.
  intros H. apply list_fmap_ext. intros i k Hk.
  rewrite H; [done |]. by eapply list_elem_of_lookup_2.
Qed.

Lemma define_present f ks c p :
  NoDup ks -> c ∈ ks ->
  define (table_of f ks) c p
  = table_of (fun k => if decide (k = c) then p else f k) ks.
Proof.
  induction ks as [|k ks IH]; intros Hnd Hc; [by apply elem_of_nil in Hc |].
  apply NoDup_cons in Hnd as [Hk Hnd].
  unfold table_of. rewrite !fmap_cons. cbn [define].
  destruct (JsString.eqb c k) eqn:Heq.
  - apply eqb_eq in Heq as ->. rewrite decide_True by done. f_equal.
    apply table_of_ext. intros k' Hk'. rewrite decide_False; [done |].
    by intros ->.
  - apply eqb_neq in Heq. rewrite decide_False by done. f_equal.
    apply IH; [done |]. apply elem_of_cons in Hc as [? | ?]; done.
Qed.

Lemma table_of_snoc f ks c : table_of f (ks ++ [c]) = table_of f ks ++ [(c, f c)].
Proof. unfold table_of. by rewrite fmap_app. Qed.

Lemma own_snoc o c p : own o c = None -> own (o ++ [(c, p)]) c = Some p.
Proof.
  induction o as [|[k' p'] o IH]; simpl.
  - intros _. by rewrite (proj2 (eqb_eq c c)).
  - destruct (JsString.eqb c k'); [done | apply IH].
Qed.

Lemma define_snoc o c p p' :
  own o c = None -> define (o ++ [(c, p)]) c p' = o ++ [(c, p')].
Proof.
  induction o as [|[k' q] o IH]; simpl.
  - intros _. by rewrite (proj2 (eqb_eq c c)).
  - destruct (JsString.eqb c k'); [done |]. intros H. by rewrite IH.
Qed.

Lemma not_inherited_proto c :
  inherited c = false -> JsString.eqb c (js "__proto__") = false.
Proof.
  intros H. apply eqb_neq. intros ->. by vm_compute in H.
Qed.

(** *** Sums *)

Lemma positive_nonneg (x : number) :
  JsNumber.ltb JsNumber.zero x = true -> nonneg x = true /\ JsNumber.truthy x = true.
Proof. by destruct x as [[]|[]| |[] m e]. Qed.

Lemma sum_snoc xs x : sum (xs ++ [x]) = JsNumber.add (sum xs) x.
Proof. unfold sum. by rewrite fold_left_app. Qed.

Lemma sum_nonneg xs : Forall (fun x => nonneg x = true) xs -> nonneg (sum xs) = true.
Proof.
  induction xs as [|x xs IH] using rev_ind; [done |].
  intros H. apply Forall_app in H as [Hxs Hx]. rewrite Forall_singleton in Hx.
  rewrite sum_snoc. apply add_nonneg; [by apply IH | done].
Qed.

Lemma group_snoc k l r :
  group k (l ++ [r]) = if decide (label r = k) then group k l ++ [r] else group k l.
Proof.
  unfold group. rewrite filter_app. destruct (decide (label r = k)).
  - by rewrite filter_cons_True by done.
  - by rewrite filter_cons_False, app_nil_r by done.
Qed.

Lemma group_total_snoc k l r :
  group_total k (l ++ [r])
  = if decide (label r = k) then JsNumber.add (group_total k l) (Expense.amount r)
    else group_total k l.
Proof.
  unfold group_total. rewrite group_snoc. destruct (decide (label r = k)); [| done].
  rewrite fmap_app. apply sum_snoc.
Qed.

Lemma group_absent k l : k ∉ label <$> l -> group k l = [].
Proof.
  intros H. unfold group. induction l as [|r l IH]; [done |].
  rewrite fmap_cons in H. apply not_elem_of_cons in H as [Hne H].
  rewrite filter_cons_False by done. by apply IH.
Qed.

Lemma group_total_nonneg k l :
  Forall (fun exp => JsNumber.ltb JsNumber.zero (Expense.amount exp) = true) l ->
  nonneg (group_total k l) = true.
Proof.
  intros H. apply sum_nonneg, Forall_fmap. unfold group.
  apply Forall_forall. intros r Hr. apply list_elem_of_filter in Hr as [_ Hr].
  rewrite Forall_forall in H. by apply positive_nonneg, H.
Qed.

Lemma totals_of_snoc (l : list Expense.t) (r : Expense.t) :
  totals_of (l ++ [r])
  = if decide (label r ∈ label <$> l)
    then table_of (fun k => PNum (group_total k (l ++ [r])))
           (first_seen (label <$> l))
    else table_of (fun k => PNum (group_total k (l ++ [r])))
           (first_seen (label <$> l))
         ++ [(label r, PNum (group_total (label r) (l ++ [r])))].
Proof.
  unfold totals_of. rewrite fmap_app.
  change (label <$> [r]) with [label r]. rewrite first_seen_snoc.
  destruct (decide (label r ∈ label <$> l)); [done |]. by rewrite table_of_snoc.
Qed.

Lemma own_totals_of (l : list Expense.t) (c : jsstr) :
  own (totals_of l) c
  = if decide (c ∈ label <$> l) then Some (PNum (group_total c l)) else None.
Proof.
  unfold totals_of. rewrite own_table_of.
  destruct (decide (c ∈ label <$> l)) as [Hin | Hnotin].
  - by rewrite decide_True by (by apply elem_of_first_seen).
  - by rewrite decide_False by (by rewrite elem_of_first_seen).
Qed.

Lemma define_totals_of (l : list Expense.t) (c : jsstr) (p : prim) :
  c ∈ label <$> l ->
  define (totals_of l) c p
  = table_of (fun k => if decide (k = c) then p else PNum (group_total k l))
      (first_seen (label <$> l)).
Proof.
  intros Hin. unfold totals_of. apply define_present.
  - apply NoDup_first_seen.
  - by apply elem_of_first_seen.
Qed.

Lemma tally_totals_of (l : list Expense.t) (r : Expense.t) :
  Forall (fun exp => JsNumber.ltb JsNumber.zero (Expense.amount exp) = true) l ->
  JsNumber.ltb JsNumber.zero (Expense.amount r) = true ->
  inherited (label r) = false ->
  tally (totals_of l) r = totals_of (l ++ [r]).
Proof.
  intros Hl Hr Hc.
  destruct (positive_nonneg _ Hr) as [_ Htruthy].
  pose proof (not_inherited_proto _ Hc) as Hproto.
  assert (Htally : tally (totals_of l) r =
    let t1 := if negb (truthy (get (totals_of l) (label r)))
              then define (totals_of l) (label r) (PNum JsNumber.zero)
              else totals_of l in
    define t1 (label r) (plus (get t1 (label r)) (Expense.amount r))).
  { unfold tally. fold (label r). rewrite Htruthy. unfold set. by rewrite Hproto. }
  rewrite Htally, totals_of_snoc. clear Htally. cbv zeta.
  destruct (decide (label r ∈ label <$> l)) as [Hin | Hnotin].
  - assert (Hget : get (totals_of l) (label r)
                   = Prim (PNum (group_total (label r) l)))
      by (unfold get; by rewrite own_totals_of, decide_True).
    assert (Hsame :
      (if negb (truthy (get (totals_of l) (label r)))
       then define (totals_of l) (label r) (PNum JsNumber.zero)
       else totals_of l) = totals_of l).
    { rewrite Hget. cbn [truthy].
      destruct (JsNumber.truthy (group_total _ _)) eqn:Ht; [done |]. cbn [negb].
      rewrite define_totals_of by done.
      apply table_of_ext. intros k _.
      destruct (decide (k = label r)) as [-> |]; [| done].
      pose proof (group_total_nonneg (label r) l Hl) as Hnn.
      revert Ht Hnn. by destruct (group_total (label r) l) as [[]|[]| |[] m e]. }
    rewrite Hsame, Hget. cbn [plus]. rewrite define_totals_of by done.
    apply table_of_ext. intros k _. rewrite group_total_snoc.
    destruct (decide (k = label r)) as [-> |].
    + by rewrite decide_True.
    + by rewrite decide_False.
  - assert (Hown : own (totals_of l) (label r) = None)
      by (by rewrite own_totals_of, decide_False).
    assert (Hget : get (totals_of l) (label r) = Undefined)
      by (unfold get; by rewrite Hown, Hc).
    rewrite Hget. cbn [truthy negb].
    assert (Hfresh : define (totals_of l) (label r) (PNum JsNumber.zero)
                     = totals_of l ++ [(label r, PNum JsNumber.zero)]).
    { unfold totals_of. apply define_fresh. by rewrite elem_of_first_seen. }
    rewrite Hfresh. unfold get. rewrite own_snoc by done. cbn [plus].
    rewrite define_snoc by done. f_equal.
    + apply table_of_ext. intros k Hk. rewrite group_total_snoc.
      rewrite decide_False; [done |]. intros <-.
      rewrite elem_of_first_seen in Hk. by apply Hnotin.
    + rewrite group_total_snoc, decide_True by done.
      unfold group_total. by rewrite group_absent.
Qed.

Lemma fold_tally (l : list Expense.t) :
  Forall (fun exp => JsNumber.ltb JsNumber.zero (Expense.amount exp) = true) l ->
  Forall (fun exp => inherited (label exp) = false) l ->
  fold_left tally l [] = totals_of l.
Proof.
  induction l as [|r l IH] using rev_ind; [done |].
  intros Ha Hc. apply Forall_app in Ha as [Ha Hr], Hc as [Hc Hi].
  rewrite Forall_singleton in Hr, Hi.
  rewrite fold_left_app. cbn [fold_left]. rewrite IH by done.
  by apply tally_totals_of.
Qed.

End TotalsFacts.

Section EntriesFacts.

Import JsObject.

#[local] Instance index_le_trans : Transitive index_le.
Proof. unfold index_le; intros a b c; lia. Qed.

#[local] Instance index_le_total : Total index_le.
Proof. unfold index_le; intros a b; lia. Qed.

Lemma indexed_cons (kv : jsstr * prim) (o : JsObject.t) :
  indexed (kv :: o)
  = match array_index kv.1 with
    | Some n => (n, kv) :: indexed o
    | None => indexed o
    end.
Proof. unfold indexed. cbn [omap list_omap]. by destruct (array_index kv.1). Qed.

Lemma indexed_values (o : JsObject.t) :
  (indexed o).*2 = filter (fun kv => is_Some (array_index kv.1)) o.
Proof.
  induction o as [|kv o IH]; [done |].
  rewrite indexed_cons. destruct (array_index kv.1) as [n|] eqn:Hn.
  - rewrite (filter_cons_True (fun kv => is_Some (array_index kv.1)))
      by (rewrite Hn; eauto).
    by rewrite fmap_cons, IH.
  - rewrite (filter_cons_False (fun kv => is_Some (array_index kv.1))); [done |].
    rewrite Hn. by intros [? ?].
Qed.

Lemma indexed_index (o : JsObject.t) :
  Forall (fun x => array_index x.2.1 = Some x.1) (indexed o).
Proof.
  induction o as [|kv o IH]; [constructor |].
  rewrite indexed_cons. destruct (array_index kv.1) as [n|] eqn:Hn; [| done].
  by constructor.
Qed.

Lemma named_not_indexed (o : JsObject.t) :
  named o = filter (fun kv => ~ is_Some (array_index kv.1)) o.
Proof.
  unfold named. apply list_filter_iff. intros kv. apply eq_None_not_Some.
Qed.

(** [Object.entries] lists every own property once. *)
Lemma entries_Permutation (o : JsObject.t) : entries o ≡ₚ o.
Proof.
  unfold entries. rewrite merge_sort_Permutation, indexed_values, named_not_indexed.
  apply filter_app_complement.
Qed.

Lemma filter_keys {B} (P : jsstr -> Prop) `{forall k, Decision (P k)}
    (g : jsstr -> B) (ks : list jsstr) :
  (filter (fun kv : jsstr * B => P kv.1) ((fun k => (k, g k)) <$> ks)).*1
  = filter P ks.
Proof.
  induction ks as [|k ks IH]; [done |].
  rewrite fmap_cons, (filter_cons (fun kv : jsstr * B => P kv.1)), (filter_cons P).
  cbn [fst].
  destruct (decide (P k)); [rewrite fmap_cons; cbn [fst] |]; by rewrite IH.
Qed.

Lemma sorted_by_index (l : list (N * (jsstr * prim))) :
  StronglySorted index_le l ->
  Forall (fun x => array_index x.2.1 = Some x.1) l ->
  StronglySorted index_order (l.*2.*1).
Proof.
  induction 1 as [|x l Hl IH Hx]; intros Hidx; [constructor |].
  apply Forall_cons in Hidx as [Hx0 Hidx].
  rewrite !fmap_cons. constructor; [by apply IH |].
  apply Forall_fmap, Forall_fmap, Forall_forall. intros y Hy.
  rewrite Forall_forall in Hx, Hidx.
  exists x.1, y.1. repeat split; [done | by apply Hidx | by apply Hx].
Qed.

(** The keys of [Object.entries]: the array indices in ascending order,
    then the other keys as they stand. *)
Lemma entries_keys (f : jsstr -> prim) (ks : list jsstr) :
  exists idx,
    (entries ((fun k => (k, f k)) <$> ks)).*1
    = idx ++ filter (fun k => array_index k = None) ks
    /\ idx ≡ₚ filter (fun k => is_Some (array_index k)) ks
    /\ StronglySorted index_order idx.
Proof.
  set (o := (fun k => (k, f k)) <$> ks).
  exists ((merge_sort index_le (indexed o)).*2.*1). repeat split.
  - unfold entries. rewrite fmap_app. f_equal.
    unfold named, o. exact (filter_keys (fun k => array_index k = None) f ks).
  - rewrite merge_sort_Permutation, indexed_values. unfold o.
    pose proof (filter_keys (fun k => is_Some (array_index k)) f ks) as Hk.
    cbv beta in Hk. by rewrite Hk.
  - apply sorted_by_index.
    + apply StronglySorted_merge_sort; apply _.
    + rewrite merge_sort_Permutation. apply indexed_index.
Qed.

Lemma imap_names (l : JsObject.t) (g : nat -> jsstr) :
  Slice.name <$> imap (fun index '(category, total) =>
                         Slice.mk category total (g index) COLORS.darkText 14) l
  = l.*1.
Proof.
  revert g. induction l as [|[k p] l IH]; intros g; [done |].
  rewrite imap_cons, !fmap_cons. cbn [Slice.name fst]. f_equal.
  apply (IH (g ∘ S)).
Qed.

Lemma imap_amounts (l : JsObject.t) (g : nat -> jsstr) :
  Slice.amount <$> imap (fun index '(category, total) =>
                           Slice.mk category total (g index) COLORS.darkText 14) l
  = l.*2.
Proof.
  revert g. induction l as [|[k p] l IH]; intros g; [done |].
  rewrite imap_cons, !fmap_cons. cbn [Slice.amount snd]. f_equal.
  apply (IH (g ∘ S)).
Qed.

Lemma imap_pairs (l : JsObject.t) (g : nat -> jsstr) :
  (fun s => (Slice.name s, Slice.amount s))
    <$> imap (fun index '(category, total) =>
                Slice.mk category total (g index) COLORS.darkText 14) l
  = l.
Proof.
  revert g. induction l as [|[k p] l IH]; intros g; [done |].
  rewrite imap_cons, !fmap_cons. cbn [Slice.name Slice.amount]. f_equal.
  apply (IH (g ∘ S)).
Qed.

End EntriesFacts.

(** ** Whole amounts *)

Section WholeAmounts.

Import JsObject.

Lemma add_of_Z (a b : Z) :
  0 <= a -> 0 <= b -> a + b < 2 ^ 53 ->
  JsNumber.add (JsNumber.of_Z a) (JsNumber.of_Z b) = JsNumber.of_Z (a + b).
Proof.
  intros Ha Hb Hsum. destruct a as [|a|a], b as [|b|b]; try lia; try done.
  - destruct (of_Z_pos b) as (T & HT & _); [lia |]. cbn [Z.add]. by rewrite HT.
  - destruct (of_Z_pos a) as (T & HT & _); [lia |]. rewrite Z.add_0_r. by rewrite HT.
  - by apply add_of_Z_pos.
Qed.

Lemma Zsum_cons (n : Z) (ns : list Z) : Zsum (n :: ns) = n + Zsum ns.
Proof. reflexivity. Qed.

Lemma Zsum_nonneg (ns : list Z) : Forall (fun n => 0 <= n) ns -> 0 <= Zsum ns.
Proof. induction 1; rewrite ?Zsum_cons; [done | lia]. Qed.

Lemma fold_add_of_Z (ns : list Z) (acc : Z) :
  Forall (fun n => 0 <= n) ns -> 0 <= acc -> acc + Zsum ns < 2 ^ 53 ->
  fold_left JsNumber.add (JsNumber.of_Z <$> ns) (JsNumber.of_Z acc)
  = JsNumber.of_Z (acc + Zsum ns).
Proof.
  intros Hns. revert acc. induction Hns as [|n ns Hn Hns IH]; intros acc Hacc Hsum.
  - simpl. by rewrite Z.add_0_r.
  - pose proof (Zsum_nonneg ns Hns). rewrite Zsum_cons in Hsum |- *.
    rewrite fmap_cons. cbn [fold_left]. rewrite add_of_Z by lia.
    rewrite IH by lia. f_equal. lia.
Qed.

Lemma sum_of_Z (ns : list Z) :
  Forall (fun n => 0 <= n) ns -> Zsum ns < 2 ^ 53 ->
  sum (JsNumber.of_Z <$> ns) = JsNumber.of_Z (Zsum ns).
Proof.
  intros Hns Hsum. unfold sum. change JsNumber.zero with (JsNumber.of_Z 0).
  by rewrite fold_add_of_Z.
Qed.

Lemma amounts_of_Z (l : list Expense.t) :
  Forall (fun exp => positive_whole (Expense.amount exp)) l ->
  Expense.amount <$> l = JsNumber.of_Z <$> (whole <$> l).
Proof.
  induction 1 as [|r l [_ Hr] Hl IH]; [done |].
  rewrite !fmap_cons, IH. f_equal. exact Hr.
Qed.

Lemma whole_nonneg (l : list Expense.t) :
  Forall (fun exp => positive_whole (Expense.amount exp)) l ->
  Forall (fun n => 0 <= n) (whole <$> l).
Proof.
  intros H. apply Forall_fmap. eapply Forall_impl; [exact H |].
  intros r [Hr _]. unfold whole. simpl. lia.
Qed.

Lemma sum_whole (l : list Expense.t) :
  Forall (fun exp => positive_whole (Expense.amount exp)) l ->
  whole_total l < 2 ^ 53 ->
  sum (Expense.amount <$> l) = JsNumber.of_Z (whole_total l).
Proof.
  intros Hl Hsum. rewrite amounts_of_Z by done.
  apply sum_of_Z; [by apply whole_nonneg | done].
Qed.

Lemma positive_whole_positive (x : number) :
  positive_whole x -> whole_part x < 2 ^ 53 ->
  JsNumber.ltb JsNumber.zero x = true.
Proof.
  intros [Hpos Hx] Hlt. rewrite Hx.
  destruct (whole_part x) as [|n|n]; try lia.
  by destruct (of_Z_pos n Hlt) as (T & -> & _).
Qed.

Lemma whole_total_group (k : jsstr) (l : list Expense.t) :
  Forall (fun exp => positive_whole (Expense.amount exp)) l ->
  0 <= whole_total (group k l) <= whole_total l.
Proof.
  unfold whole_total, group. induction 1 as [|r l [Hr _] Hl IH].
  - done.
  - fold (whole r) in Hr. rewrite (filter_cons (fun exp => label exp = k)).
    destruct (decide (label r = k)); rewrite !fmap_cons, !Zsum_cons; lia.
Qed.

Lemma whole_le_total (r : Expense.t) (l : list Expense.t) :
  Forall (fun exp => positive_whole (Expense.amount exp)) l ->
  r ∈ l -> whole r <= whole_total l.
Proof.
  unfold whole_total. induction 1 as [|r' l [Hr' _] Hl IH]; intros Hr.
  - by apply elem_of_nil in Hr.
  - fold (whole r') in Hr'. pose proof (Zsum_nonneg _ (whole_nonneg l Hl)).
    rewrite fmap_cons, Zsum_cons.
    apply elem_of_cons in Hr as [-> | Hr]; [lia |]. specialize (IH Hr). lia.
Qed.

Lemma group_total_whole (k : jsstr) (l : list Expense.t) :
  Forall (fun exp => positive_whole (Expense.amount exp)) l ->
  whole_total l < 2 ^ 53 ->
  group_total k l = JsNumber.of_Z (whole_total (group k l)).
Proof.
  intros Hl Hsum. unfold group_total. apply sum_whole.
  - unfold group. apply Forall_forall. intros r Hr.
    apply list_elem_of_filter in Hr as [_ Hr]. rewrite Forall_forall in Hl. auto.
  - pose proof (whole_total_group k l Hl). lia.
Qed.

Lemma values_of_keys {A B C} (g : A -> B) (h : B -> C) (l : list (A * C)) :
  Forall (fun kv => kv.2 = h (g kv.1)) l -> l.*2 = h <$> (g <$> l.*1).
Proof.
  induction 1 as [|kv l Hkv Hl IH]; [done |]. rewrite !fmap_cons. by rewrite IH, Hkv.
Qed.

(** *** The groups partition the records *)

Lemma Zsum_Permutation (xs ys : list Z) : xs ≡ₚ ys -> Zsum xs = Zsum ys.
Proof. induction 1; rewrite ?Zsum_cons; lia. Qed.

Lemma Zsum_select_none (ks : list jsstr) (c : jsstr) (v : Z) :
  c ∉ ks -> Zsum ((fun k => if decide (c = k) then v else 0) <$> ks) = 0.
Proof.
  induction ks as [|k ks IH]; intros Hc; [done |].
  apply not_elem_of_cons in Hc as [Hne Hc].
  rewrite fmap_cons, Zsum_cons, decide_False, IH by done. lia.
Qed.

Lemma Zsum_select (ks : list jsstr) (c : jsstr) (v : Z) :
  NoDup ks -> c ∈ ks ->
  Zsum ((fun k => if decide (c = k) then v else 0) <$> ks) = v.
Proof.
  induction 1 as [|k ks Hk Hnd IH]; intros Hc; [by apply elem_of_nil in Hc |].
  rewrite fmap_cons, Zsum_cons. destruct (decide (c = k)) as [-> | Hne].
  - rewrite Zsum_select_none by done. lia.
  - apply elem_of_cons in Hc as [? | Hc]; [done |]. rewrite IH by done. lia.
Qed.

Lemma whole_total_group_cons (k : jsstr) (r : Expense.t) (l : list Expense.t) :
  whole_total (group k (r :: l))
  = (if decide (label r = k) then whole r else 0) + whole_total (group k l).
Proof.
  unfold whole_total, group. rewrite (filter_cons (fun exp => label exp = k)).
  destruct (decide (label r = k)); [| lia]. by rewrite fmap_cons, Zsum_cons.
Qed.

Lemma Zsum_plus {A} (f g : A -> Z) (l : list A) :
  Zsum ((fun x => f x + g x) <$> l) = Zsum (f <$> l) + Zsum (g <$> l).
Proof.
  induction l as [|x l IH]; [done |]. rewrite !fmap_cons, !Zsum_cons, IH. lia.
Qed.

Lemma whole_total_groups (ks : list jsstr) (l : list Expense.t) :
  NoDup ks -> Forall (fun exp => label exp ∈ ks) l ->
  Zsum ((fun k => whole_total (group k l)) <$> ks) = whole_total l.
Proof.
  intros Hnd. induction 1 as [|r l Hr Hl IH].
  - clear Hnd. induction ks as [|k ks IHks]; [done |].
    rewrite fmap_cons, Zsum_cons, IHks. done.
  - rewrite (list_fmap_ext _
      (fun k => (if decide (label r = k) then whole r else 0)
                + whole_total (group k l)) ks)
      by (intros; apply whole_total_group_cons).
    rewrite Zsum_plus, IH, Zsum_select by done.
    unfold whole_total. by rewrite fmap_cons, Zsum_cons.
Qed.

End WholeAmounts.

(** ** Trimming *)

Section TrimFacts.

Import JsString.

Lemma trimStart_blank_app (l s : jsstr) : blank l -> trimStart (l ++ s) = trimStart s.
Proof. induction 1 as [|c l Hc Hl IH]; [done |]. simpl. by rewrite Hc. Qed.

Lemma trimStart_split (s : jsstr) : exists l, s = l ++ trimStart s /\ blank l.
Proof.
  induction s as [|c s (l & Hs & Hl)]; [exists []; split; [done | constructor] |].
  simpl. destruct (is_white_space c) eqn:Hc.
  - exists (c :: l). split; [by rewrite Hs at 1 | by constructor].
  - exists []. split; [done | constructor].
Qed.

Lemma trimStart_head (s : jsstr) (c : N) :
  head (trimStart s) = Some c -> is_white_space c = false.
Proof.
  induction s as [|c' s IH]; [done |]. simpl.
  destruct (is_white_space c') eqn:Hc; [done |]. by intros [= <-].
Qed.

Lemma trimStart_id (s : jsstr) :
  (forall c, head s = Some c -> is_white_space c = false) -> trimStart s = s.
Proof. destruct s as [|c s]; [done |]. intros H. simpl. by rewrite (H c). Qed.

Lemma trimEnd_split (s : jsstr) : exists r, s = trimEnd s ++ r /\ blank r.
Proof.
  unfold trimEnd. destruct (trimStart_split (rev s)) as (l & Hs & Hl).
  exists (rev l). split.
  - rewrite <- rev_app_distr, <- Hs. by rewrite rev_involutive.
  - by apply Forall_rev.
Qed.

Lemma last_rev_head (s : jsstr) : last (rev s) = head s.
Proof. destruct s as [|c s]; [done |]. simpl. by rewrite last_snoc. Qed.

Lemma trimEnd_last (s : jsstr) (c : N) :
  last (trimEnd s) = Some c -> is_white_space c = false.
Proof. unfold trimEnd. rewrite last_rev_head. apply trimStart_head. Qed.

Lemma trimEnd_id (s : jsstr) :
  (forall c, last s = Some c -> is_white_space c = false) -> trimEnd s = s.
Proof.
  intros H. unfold trimEnd. rewrite trimStart_id; [apply rev_involutive |].
  intros c Hc. apply H. by rewrite <- (rev_involutive s), last_rev_head.
Qed.

Lemma trimEnd_head (s : jsstr) (c : N) :
  (forall c, head s = Some c -> is_white_space c = false) ->
  head (trimEnd s) = Some c -> is_white_space c = false.
Proof.
  intros H Hc. destruct (trimEnd_split s) as (r & Hs & Hr).
  apply H. rewrite Hs. by destruct (trimEnd s).
Qed.

(** [trim] takes whitespace off both ends and nothing else. *)
Lemma trim_split (s : jsstr) :
  exists l r, s = l ++ trim s ++ r /\ blank l /\ blank r.
Proof.
  destruct (trimStart_split s) as (l & Hs & Hl).
  destruct (trimEnd_split (trimStart s)) as (r & Ht & Hr).
  exists l, r. split; [| done]. unfold trim. by rewrite <- Ht.
Qed.

Lemma trim_trimmed (s : jsstr) : trimmed (trim s).
Proof.
  unfold trim. split.
  - intros c. apply trimEnd_head, trimStart_head.
  - apply trimEnd_last.
Qed.

Lemma trim_id (s : jsstr) : trimmed s -> trim s = s.
Proof. intros [Hh Hl]. unfold trim. by rewrite trimStart_id, trimEnd_id. Qed.

Lemma trim_blank (s : jsstr) : trim s = [] <-> blank s.
Proof.
  split.
  - intros H. destruct (trim_split s) as (l & r & Hs & Hl & Hr).
    rewrite H in Hs. rewrite Hs. by apply Forall_app.
  - intros H. unfold trim.
    assert (trimStart s = []) as ->; [| done].
    rewrite <- (app_nil_r s). by rewrite trimStart_blank_app.
Qed.

End TrimFacts.

Lemma blank_Exists (s : jsstr) :
  ~ blank s <-> Exists (fun c => JsString.is_white_space c = false) s.
Proof.
  unfold blank. split.
  - intros H. apply not_Forall_Exists in H; [| apply _].
    eapply Exists_impl; [exact H |]. simpl. intros c Hc.
    by destruct (JsString.is_white_space c).
  - intros H Hall. apply Exists_exists in H as (c & Hin & Hc).
    rewrite Forall_forall in Hall. specialize (Hall c Hin). congruence.
Qed.

(** ** The sample table *)

Lemma sample_tidy : tidy (Some sample_table).
Proof.
  intros tb k r [= <-] Hk. unfold sample_table in Hk. cbn [Db.rows] in Hk.
  apply lookup_insert_Some in Hk as [[_ <-] | [_ Hk]];
    [| apply lookup_insert_Some in Hk as [[_ <-] | [_ Hk]];
       [| by rewrite lookup_empty in Hk]].
  - split; [done |]. split; [done |]. split.
    + split; intros c [= <-]; done.
    + by intros n.
  - split; [done |]. split; [done |]. split.
    + split; intros c [= <-]; done.
    + intros n [= <-]. split; [done |]. split; intros c [= <-]; done.
Qed.

(** ** The claims about the store *)



(** C2, as amended. An add whose amount parses to NaN or to a number
    that is not greater than zero, or whose category is blank after
    trimming, resolves without a single call to the database or to a
    setter: the database, and with it the list read back, is what it
    was. *)
Theorem add_invalid_no_change (w : world) :
  JsNumber.isNaN (parseFloat (amount (ui w))) = true
  \/ JsNumber.leb (parseFloat (amount (ui w))) JsNumber.zero = true
  \/ JsString.trim (category (ui w)) = [] ->
  addExpense w = Resolved tt w
  /\ db (final (addExpense w)) = db w
  /\ Db.select_all_desc (db (final (addExpense w))) = Db.select_all_desc (db w).
Proof.
  intros H.
  assert (Hw : addExpense w = Resolved tt w).
  { apply addExpense_rejects. unfold rejects.
    destruct H as [-> | [-> | ->]]; [done | | ].
    - by rewrite orb_true_r.
    - by rewrite orb_true_r. }
  by rewrite Hw.
Qed.

Lemma add_invalid_no_change_witness :
  addExpense (sample_world "-5" "Food" "") = Resolved tt (sample_world "-5" "Food" "")
  /\ db (final (addExpense (sample_world "-5" "Food" ""))) = Some sample_table
  /\ Db.select_all_desc (db (final (addExpense (sample_world "-5" "Food" ""))))
     = Db.select_all_desc (Some sample_table).
Proof.
  apply (add_invalid_no_change (sample_world "-5" "Food" "")).
  right; left. vm_compute. reflexivity.
Defined.

(** C2 fails as stated: the amount [Infinity] parses to a number that is
    not finite, and on a table just created the add stores a record. *)
Lemma add_infinite_amount_accepted :
  ~ (forall w : world,
       JsNumber.isNaN (parseFloat (amount (ui w))) = true
       \/ JsNumber.isFinite (parseFloat (amount (ui w)))
            && JsNumber.ltb JsNumber.zero (parseFloat (amount (ui w))) = false
       \/ JsString.trim (category (ui w)) = [] ->
       Db.select_all_desc (db (final (addExpense w))) = Db.select_all_desc (db w)).
Proof.
  intros H.
  specialize (H (final (setup (fresh_world "Infinity" "Food" "")))).
  assert (Hstored :
    Db.select_all_desc
      (db (final (addExpense (final (setup (fresh_world "Infinity" "Food" ""))))))
    = inr [Expense.mk 1 JsNumber.Infinity (Some (js "Food")) None])
    by (vm_compute; reflexivity).
  rewrite Hstored in H.
  assert (Hbefore :
    Db.select_all_desc (db (final (setup (fresh_world "Infinity" "Food" ""))))
    = inr []) by (vm_compute; reflexivity).
  rewrite Hbefore in H.
  discriminate H. right; left. vm_compute. reflexivity.
Qed.

(** Digits alone reach it too, on the numeric keyboard of the amount
    field: a 1 followed by 309 zeros is above the largest number. *)
Lemma parseFloat_long_digits :
  parseFloat (js "1" ++ replicate 309 48%N) = JsNumber.Infinity.
Proof. vm_compute. reflexivity. Qed.

(** C3. On a created table [deleteExpense id] resolves for every id; the
    list read back afterwards is the list before without the records of
    that id: none of its records has the id, a record with another id is
    in it exactly if it was in the list before, and when no record had the
    id the table is the table before. *)
Theorem delete_removes_matching_id (w : world) (tb : Db.table) (i : Z) :
  db w = Some tb ->
  exists w',
    deleteExpense i w = Resolved tt w'
    /\ Db.select_all_desc (db w')
       = inr (filter (fun x => Expense.id x <> i) (Db.order_by_id_desc (Db.rows tb)))
    /\ expenses (ui w')
       = filter (fun x => Expense.id x <> i) (Db.order_by_id_desc (Db.rows tb))
    /\ Forall (fun x => Expense.id x <> i) (expenses (ui w'))
    /\ (forall x, Expense.id x <> i ->
          (x ∈ expenses (ui w') <-> x ∈ Db.order_by_id_desc (Db.rows tb)))
    /\ (Forall (fun x => Expense.id x <> i) (Db.order_by_id_desc (Db.rows tb)) ->
          db w' = db w
          /\ expenses (ui w') = Db.order_by_id_desc (Db.rows tb)).
Proof.
  intros Hdb. eexists. split; [by apply deleteExpense_runs |].
  cbn [db ui expenses]. repeat split.
  - unfold Db.select_all_desc. cbn [Db.rows]. by rewrite order_by_id_desc_delete.
  - apply Forall_forall. intros x Hx. by apply list_elem_of_filter in Hx as [? _].
  - intros Hx. by apply list_elem_of_filter in Hx as [_ ?].
  - intros Hx. by apply list_elem_of_filter.
  - rewrite Hdb. destruct tb as [m s]. cbn [Db.rows Db.sequence] in *.
    rewrite delete_id; [done |].
    destruct (m !! i) as [r|] eqn:Hi; [| done].
    rewrite Forall_forall in H. exfalso.
    apply (H (Db.to_expense (i, r))); [| done].
    apply elem_of_order_by_id_desc. eauto.
  - by apply filter_all.
Qed.

Lemma delete_removes_matching_id_witness :
  exists w',
    deleteExpense 1 (sample_world "" "" "") = Resolved tt w'
    /\ Db.select_all_desc (db w')
       = inr (filter (fun x => Expense.id x <> 1)
                (Db.order_by_id_desc (Db.rows sample_table)))
    /\ expenses (ui w')
       = filter (fun x => Expense.id x <> 1)
           (Db.order_by_id_desc (Db.rows sample_table))
    /\ Forall (fun x => Expense.id x <> 1) (expenses (ui w'))
    /\ (forall x, Expense.id x <> 1 ->
          (x ∈ expenses (ui w') <-> x ∈ Db.order_by_id_desc (Db.rows sample_table)))
    /\ (Forall (fun x => Expense.id x <> 1)
          (Db.order_by_id_desc (Db.rows sample_table)) ->
          db w' = db (sample_world "" "" "")
          /\ expenses (ui w') = Db.order_by_id_desc (Db.rows sample_table)).
Proof.
  apply (delete_removes_matching_id (sample_world "" "" "") sample_table 1).
  reflexivity.
Defined.

(** C4. On a created table [loadExpenses] resolves and leaves the
    database as it was; the list it puts in [expenses] holds exactly the
    rows of the table, each once, in strictly descending order of id, and
    is empty when the table has no row. *)
Theorem load_lists_by_descending_id (w : world) (tb : Db.table) :
  db w = Some tb ->
  exists w',
    loadExpenses w = Resolved tt w'
    /\ db w' = db w
    /\ Db.select_all_desc (db w) = inr (expenses (ui w'))
    /\ StronglySorted (fun a b => Expense.id b < Expense.id a) (expenses (ui w'))
    /\ (forall x, x ∈ expenses (ui w')
          <-> exists k r, Db.rows tb !! k = Some r /\ x = Db.to_expense (k, r))
    /\ NoDup (expenses (ui w'))
    /\ (Db.rows tb = ∅ -> expenses (ui w') = []).
Proof.
  intros Hdb. eexists. split; [by apply loadExpenses_runs |].
  cbn [db ui expenses]. repeat split.
  - by rewrite Hdb.
  - apply order_by_id_desc_sorted.
  - by apply elem_of_order_by_id_desc.
  - by apply elem_of_order_by_id_desc.
  - apply StronglySorted_newer_NoDup, order_by_id_desc_sorted.
  - intros ->. apply order_by_id_desc_empty.
Qed.

Lemma load_lists_by_descending_id_witness :
  exists w',
    loadExpenses (sample_world "" "" "") = Resolved tt w'
    /\ db w' = db (sample_world "" "" "")
    /\ Db.select_all_desc (db (sample_world "" "" "")) = inr (expenses (ui w'))
    /\ StronglySorted (fun a b => Expense.id b < Expense.id a) (expenses (ui w'))
    /\ (forall x, x ∈ expenses (ui w')
          <-> exists k r, Db.rows sample_table !! k = Some r
                          /\ x = Db.to_expense (k, r))
    /\ NoDup (expenses (ui w'))
    /\ (Db.rows sample_table = ∅ -> expenses (ui w') = []).
Proof.
  apply (load_lists_by_descending_id (sample_world "" "" "") sample_table).
  reflexivity.
Defined.

(** C7. A successful add stores one new row.  Its category is the text
    of the category field without the white space at its two ends: the
    field is the stored text between two runs of white space, and the
    stored text is not empty and neither begins nor ends with white
    space.  When the note field holds white space only, or nothing, the
    note is stored as NULL; otherwise it is stored as the text of the
    field without the white space at its two ends, which is not empty.
    The stored note is never the empty string, and if no row of the table
    had an empty note before, none has one after. *)
Theorem add_stores_trimmed_note_or_null (w : world) (tb : Db.table) :
  db w = Some tb ->
  JsNumber.ltb JsNumber.zero (parseFloat (amount (ui w))) = true ->
  Exists (fun c => JsString.is_white_space c = false) (category (ui w)) ->
  exists w' tb' i r,
    addExpense w = Resolved tt w'
    /\ db w' = Some tb'
    /\ Db.rows tb !! i = None
    /\ Db.rows tb' = <[i := r]> (Db.rows tb)
    /\ Db.row_category r = JsString.trim (category (ui w))
    /\ Db.row_note r =
         match JsString.trim (note (ui w)) with
         | [] => None
         | c :: s => Some (c :: s)
         end
    /\ (exists l t,
          category (ui w) = l ++ Db.row_category r ++ t /\ blank l /\ blank t)
    /\ trimmed (Db.row_category r)
    /\ Db.row_category r <> []
    /\ (blank (note (ui w)) /\ Db.row_note r = None
        \/ exists n l t,
             Db.row_note r = Some n
             /\ note (ui w) = l ++ n ++ t
             /\ blank l /\ blank t /\ trimmed n /\ n <> [])
    /\ Db.row_note r <> Some []
    /\ ((forall k r0, Db.rows tb !! k = Some r0 -> Db.row_note r0 <> Some []) ->
        forall k r0, Db.rows tb' !! k = Some r0 -> Db.row_note r0 <> Some []).
Proof.
  intros Hdb Ha Hc.
  assert (Hcat : JsString.trim (category (ui w)) <> []).
  { intros Hnil. apply trim_blank in Hnil. by apply blank_Exists in Hc. }
  pose proof (accepted _ Ha Hcat) as Hacc.
  assert (Hnote : Db.row_note (submitted (ui w)) <> Some []).
  { unfold submitted; simpl. by destruct (JsString.trim (note (ui w))). }
  eexists _, _, (Db.next_rowid tb), (submitted (ui w)).
  split; [by apply addExpense_accepts |]. cbn [db ui].
  split; [done |]. cbn [Db.rows].
  split.
  { destruct (Db.rows tb !! Db.next_rowid tb) eqn:Hk; [| done].
    pose proof (next_rowid_above_rows tb (Db.next_rowid tb) (ltac:(eauto))). lia. }
  split; [done |]. split; [done |].
  split.
  { unfold submitted; simpl. by destruct (JsString.trim (note (ui w))). }
  split; [apply trim_split |]. split; [apply trim_trimmed |].
  split; [done |].
  split.
  { unfold submitted. cbn [Db.row_note].
    destruct (JsString.truthy (JsString.trim (note (ui w)))) eqn:Hn.
    - right. destruct (trim_split (note (ui w))) as (l & t & Hs & Hl & Ht).
      exists (JsString.trim (note (ui w))), l, t.
      split; [done |]. split; [done |]. split; [done |]. split; [done |].
      split; [apply trim_trimmed | by apply truthy_trim].
    - left. split; [| done]. apply trim_blank.
      by destruct (JsString.trim (note (ui w))). }
  split; [done |].
  intros Hold k r0 Hk. destruct (decide (Db.next_rowid tb = k)) as [<- | Hne].
  - rewrite lookup_insert_eq in Hk. by injection Hk as <-.
  - rewrite lookup_insert_ne in Hk by done. eauto.
Qed.

Lemma add_stores_trimmed_note_or_null_witness :
  exists w' tb' i r,
    addExpense (sample_world "20" "Books " "   ") = Resolved tt w'
    /\ db w' = Some tb'
    /\ Db.rows sample_table !! i = None
    /\ Db.rows tb' = <[i := r]> (Db.rows sample_table)
    /\ Db.row_category r = js "Books"
    /\ Db.row_note r = None
    /\ (exists l t,
          js "Books " = l ++ Db.row_category r ++ t /\ blank l /\ blank t)
    /\ trimmed (Db.row_category r)
    /\ Db.row_category r <> []
    /\ (blank (js "   ") /\ Db.row_note r = None
        \/ exists n l t,
             Db.row_note r = Some n
             /\ js "   " = l ++ n ++ t
             /\ blank l /\ blank t /\ trimmed n /\ n <> [])
    /\ Db.row_note r <> Some []
    /\ ((forall k r0, Db.rows sample_table !! k = Some r0 ->
                      Db.row_note r0 <> Some []) ->
        forall k r0, Db.rows tb' !! k = Some r0 -> Db.row_note r0 <> Some []).
Proof.
  apply (add_stores_trimmed_note_or_null (sample_world "20" "Books " "   ")
           sample_table).
  - reflexivity.
  - vm_compute. reflexivity.
  - apply Exists_cons. left. reflexivity.
Defined.

(** C8. [setup] always resolves.  Run once or many times, it leaves the
    database with the table it found, or with an empty table if there was
    none: the table is created by the first run only and never replaced,
    and the list read back after any number of runs is the list read back
    after the first, which on an existing table is the list before. *)
Theorem setup_idempotent (w : world) (n : nat) :
  (exists w', setup (mounted n w) = Resolved tt w')
  /\ db (mounted (S n) w) = Db.create_if_not_exists (db w)
  /\ db (mounted (S n) w) = db (mounted 1 w)
  /\ expenses (ui (mounted (S n) w)) = expenses (ui (mounted 1 w))
  /\ Db.select_all_desc (db (mounted (S n) w)) = inr (expenses (ui (mounted 1 w)))
  /\ (forall tb, db w = Some tb ->
        db (mounted (S n) w) = Some tb
        /\ Db.select_all_desc (db (mounted (S n) w)) = Db.select_all_desc (db w))
  /\ (db w = None -> db (mounted (S n) w) = Some (Db.mk_table ∅ 0)).
Proof.
  assert (Hstep : forall w0,
    db (final (setup w0)) = Db.create_if_not_exists (db w0)
    /\ Db.select_all_desc (Db.create_if_not_exists (db w0))
       = inr (expenses (ui (final (setup w0))))).
  { intros w0. destruct (setup_runs w0) as (tb & Htb & ->). simpl.
    by rewrite Htb. }
  assert (Hcreated : forall d,
    Db.create_if_not_exists (Db.create_if_not_exists d)
    = Db.create_if_not_exists d) by (by intros []).
  assert (Hdb : forall k, db (mounted (S k) w) = Db.create_if_not_exists (db w)).
  { induction k as [|k IH].
    - apply Hstep.
    - change (mounted (S (S k)) w) with (final (setup (mounted (S k) w))).
      destruct (Hstep (mounted (S k) w)) as [-> _]. by rewrite IH. }
  assert (Hlist : forall k,
    Db.select_all_desc (Db.create_if_not_exists (db w))
    = inr (expenses (ui (mounted (S k) w)))).
  { intros k. change (mounted (S k) w) with (final (setup (mounted k w))).
    destruct (Hstep (mounted k w)) as [_ <-]. destruct k as [|k]; [done |].
    by rewrite Hdb, Hcreated. }
  split; [destruct (setup_runs (mounted n w)) as (tb & _ & ->); eauto |].
  split; [apply Hdb |].
  split; [by rewrite !Hdb |].
  split.
  { pose proof (Hlist n) as H1. pose proof (Hlist 0%nat) as H2. congruence. }
  split; [by rewrite Hdb, (Hlist 0%nat) |].
  split.
  - intros tb Htb. by rewrite Hdb, Htb.
  - intros Hnone. by rewrite Hdb, Hnone.
Qed.

(** C9. When a guard of [addExpense] rejects the input, the handler
    returns before it calls anything: the three fields of the form, and
    the rest of the state, are what they were. *)
Theorem rejected_add_keeps_form (w : world) :
  rejects (ui w) = true ->
  addExpense w = Resolved tt w
  /\ amount (ui (final (addExpense w))) = amount (ui w)
  /\ category (ui (final (addExpense w))) = category (ui w)
  /\ note (ui (final (addExpense w))) = note (ui w)
  /\ calls (final (addExpense w)) = calls w.
Proof. intros H. by rewrite addExpense_rejects. Qed.

Lemma rejected_add_keeps_form_witness :
  addExpense (sample_world "20" "  " "x") = Resolved tt (sample_world "20" "  " "x")
  /\ amount (ui (final (addExpense (sample_world "20" "  " "x")))) = js "20"
  /\ category (ui (final (addExpense (sample_world "20" "  " "x")))) = js "  "
  /\ note (ui (final (addExpense (sample_world "20" "  " "x")))) = js "x"
  /\ calls (final (addExpense (sample_world "20" "  " "x"))) = [].
Proof.
  apply (rejected_add_keeps_form (sample_world "20" "  " "x")).
  vm_compute. reflexivity.
Defined.

(** C10. A successful add calls, in this order, the INSERT, [setAmount],
    [setCategory] and [setNote] with the empty string, and only then the
    SELECT of [loadExpenses] and [setExpenses]; the three fields are empty
    afterwards. *)
Theorem accepted_add_clears_form (w : world) (tb : Db.table) :
  db w = Some tb ->
  rejects (ui w) = false ->
  exists w' a c n rows,
    addExpense w = Resolved tt w'
    /\ calls w' = calls w ++ [RunInsert a c n; SetAmount []; SetCategory [];
                              SetNote []; GetAll; SetExpenses rows]
    /\ amount (ui w') = []
    /\ category (ui w') = []
    /\ note (ui w') = [].
Proof.
  intros Hdb Hacc. eexists _, _, _, _, _.
  split; [by apply addExpense_accepts |]. by cbn [calls ui amount category note cleared].
Qed.

Lemma accepted_add_clears_form_witness :
  exists w' a c n rows,
    addExpense (sample_world "7.25" "Bus" "") = Resolved tt w'
    /\ calls w' = [RunInsert a c n; SetAmount []; SetCategory [];
                   SetNote []; GetAll; SetExpenses rows]
    /\ amount (ui w') = []
    /\ category (ui w') = []
    /\ note (ui w') = [].
Proof.
  apply (accepted_add_clears_form (sample_world "7.25" "Bus" "") sample_table).
  - reflexivity.
  - vm_compute. reflexivity.
Defined.

(** ** The claims about the chart *)

(** C5, as amended. For records whose amounts are greater than zero and
    whose labels (the category, or [Other] when it is absent or empty)
    are not names of properties of [Object.prototype],
    [getCategoryTotals] returns one entry per distinct label, whose amount
    is the sum, from left to right, of the amounts of the records of that
    label; the labels that read as array indices come first, in ascending
    numeric order, and the other labels follow in the order in which they
    are first seen. *)
Theorem category_totals_by_label (records : list Expense.t) :
  Forall (fun exp => JsNumber.ltb JsNumber.zero (Expense.amount exp) = true) records ->
  Forall (fun exp => JsObject.inherited (label exp) = false) records ->
  let out := getCategoryTotals records in
  let labels := first_seen (label <$> records) in
  (exists idx,
     Slice.name <$> out
     = idx ++ filter (fun k => JsObject.array_index k = None) labels
     /\ idx ≡ₚ filter (fun k => is_Some (JsObject.array_index k)) labels
     /\ StronglySorted index_order idx)
  /\ Slice.name <$> out ≡ₚ labels
  /\ NoDup (Slice.name <$> out)
  /\ Forall (fun s => Slice.amount s
                      = JsObject.PNum (group_total (Slice.name s) records)) out.
Proof.
  intros Ha Hc out labels. unfold out, getCategoryTotals.
  rewrite fold_tally by done. unfold totals_of, table_of. fold labels.
  rewrite imap_names.
  assert (Hperm : (JsObject.entries
                     ((fun k => (k, JsObject.PNum (group_total k records))) <$> labels)).*1
                  ≡ₚ labels).
  { rewrite entries_Permutation, <- list_fmap_compose. by rewrite list_fmap_id. }
  split; [apply entries_keys |].
  split; [done |].
  split; [rewrite Hperm; apply NoDup_first_seen |].
  apply Forall_forall. intros s Hs.
  assert (Hin : (Slice.name s, Slice.amount s)
                ∈ (fun k => (k, JsObject.PNum (group_total k records))) <$> labels).
  { rewrite <- entries_Permutation.
    rewrite <- (imap_pairs _ (fun index =>
      nth (index mod length COLORS.pieChartColors) COLORS.pieChartColors [])).
    by apply (list_elem_of_fmap_2 (fun s => (Slice.name s, Slice.amount s))). }
  apply list_elem_of_fmap in Hin as (k & Heq & _). by injection Heq as -> ->.
Qed.

(** C6, as amended. For records whose labels are not names of
    properties of [Object.prototype] and whose amounts are positive whole
    numbers that add up to less than [2^53], however the records are
    spread over the categories, every total of [getCategoryTotals] is a
    number and the totals add up to the sum of the amounts of the
    records. *)
Theorem category_totals_sum_whole (records : list Expense.t) :
  Forall (fun exp => JsObject.inherited (label exp) = false) records ->
  Forall (fun exp => positive_whole (Expense.amount exp)) records ->
  Zsum ((fun exp => whole_part (Expense.amount exp)) <$> records) < 2 ^ 53 ->
  exists totals : list number,
    Slice.amount <$> getCategoryTotals records = JsObject.PNum <$> totals
    /\ sum totals = sum (Expense.amount <$> records)
    /\ sum totals
       = JsNumber.of_Z (Zsum ((fun exp => whole_part (Expense.amount exp)) <$> records)).
Proof.
  intros Hc Hw Hsum. fold whole in Hsum. fold (whole_total records) in Hsum.
  fold whole. fold (whole_total records).
  assert (Ha : Forall (fun exp => JsNumber.ltb JsNumber.zero (Expense.amount exp) = true)
                 records).
  { apply Forall_forall. intros r Hr.
    pose proof (whole_le_total r records Hw Hr) as Hle. unfold whole in Hle.
    rewrite Forall_forall in Hw. apply positive_whole_positive; [by apply Hw | lia]. }
  set (ord := (JsObject.entries (totals_of records)).*1).
  exists ((fun k => group_total k records) <$> ord).
  assert (Hord : ord ≡ₚ first_seen (label <$> records)).
  { unfold ord. rewrite entries_Permutation. unfold totals_of, table_of.
    rewrite <- list_fmap_compose. by rewrite list_fmap_id. }
  assert (Htotal : sum ((fun k => group_total k records) <$> ord)
                   = JsNumber.of_Z (whole_total records)).
  { rewrite (list_fmap_ext _ (fun k => JsNumber.of_Z (whole_total (group k records))) ord)
      by (intros; by apply group_total_whole).
    rewrite (list_fmap_compose (fun k => whole_total (group k records)) JsNumber.of_Z).
    assert (Hparts : Zsum ((fun k => whole_total (group k records)) <$> ord)
                     = whole_total records).
    { rewrite (Zsum_Permutation _ ((fun k => whole_total (group k records))
                                     <$> first_seen (label <$> records)))
        by (by apply fmap_Permutation).
      apply whole_total_groups; [apply NoDup_first_seen |].
      apply Forall_forall. intros r Hr. apply elem_of_first_seen.
      by apply list_elem_of_fmap_2. }
    rewrite sum_of_Z, Hparts; [done | | lia].
    apply Forall_fmap, Forall_forall. intros k _. simpl.
    by apply whole_total_group. }
  split; [| split; [| done]].
  - unfold getCategoryTotals. rewrite fold_tally by done. rewrite imap_amounts.
    unfold ord.
    assert (Hall : Forall (fun kv => kv.2 = JsObject.PNum (group_total kv.1 records))
                     (JsObject.entries (totals_of records))).
    { rewrite entries_Permutation. unfold totals_of, table_of.
      by apply Forall_fmap, Forall_forall. }
    by apply values_of_keys.
  - by rewrite Htotal, sum_whole.
Qed.

Lemma category_totals_by_label_witness :
  let records :=
    [priced 5 "5" "Rent"; priced 4 "10" "2024"; priced 3 "1" "Rent";
     Expense.mk 2 (parseFloat (js "2")) None None; priced 1 "3" "7"] in
  let out := getCategoryTotals records in
  let labels := first_seen (label <$> records) in
  (exists idx,
     Slice.name <$> out
     = idx ++ filter (fun k => JsObject.array_index k = None) labels
     /\ idx ≡ₚ filter (fun k => is_Some (JsObject.array_index k)) labels
     /\ StronglySorted index_order idx)
  /\ Slice.name <$> out ≡ₚ labels
  /\ NoDup (Slice.name <$> out)
  /\ Forall (fun s => Slice.amount s
                      = JsObject.PNum (group_total (Slice.name s) records)) out.
Proof.
  apply (category_totals_by_label
           [priced 5 "5" "Rent"; priced 4 "10" "2024"; priced 3 "1" "Rent";
            Expense.mk 2 (parseFloat (js "2")) None None; priced 1 "3" "7"]).
  - repeat (constructor; [vm_compute; reflexivity |]). constructor.
  - repeat (constructor; [vm_compute; reflexivity |]). constructor.
Defined.

(** C5 fails as stated: [Object.entries] puts a category that reads as an
    array index before the others, whatever the order of the records. *)
Lemma category_totals_not_first_seen :
  ~ (forall records : list Expense.t,
       Forall (fun exp => JsNumber.ltb JsNumber.zero (Expense.amount exp) = true)
         records ->
       Forall (fun exp => JsObject.inherited (label exp) = false) records ->
       Slice.name <$> getCategoryTotals records = first_seen (label <$> records)).
Proof.
  intros H.
  specialize (H [priced 2 "650" "Rent"; priced 1 "40" "2024"]).
  assert (Hnames :
    Slice.name <$> getCategoryTotals [priced 2 "650" "Rent"; priced 1 "40" "2024"]
    = [js "2024"; js "Rent"]) by (vm_compute; reflexivity).
  assert (Hseen :
    first_seen (label <$> [priced 2 "650" "Rent"; priced 1 "40" "2024"])
    = [js "Rent"; js "2024"]) by (vm_compute; reflexivity).
  rewrite Hnames, Hseen in H. discriminate H.
  - repeat (constructor; [vm_compute; reflexivity |]). constructor.
  - repeat (constructor; [vm_compute; reflexivity |]). constructor.
Qed.

Lemma category_totals_sum_whole_witness :
  let records := [priced 3 "10" "Food"; priced 2 "5" "Food"; priced 1 "3" "Bus"] in
  exists totals : list number,
    Slice.amount <$> getCategoryTotals records = JsObject.PNum <$> totals
    /\ sum totals = sum (Expense.amount <$> records)
    /\ sum totals
       = JsNumber.of_Z (Zsum ((fun exp => whole_part (Expense.amount exp)) <$> records)).
Proof.
  apply (category_totals_sum_whole
           [priced 3 "10" "Food"; priced 2 "5" "Food"; priced 1 "3" "Bus"]).
  - repeat (constructor; [vm_compute; reflexivity |]). constructor.
  - repeat (constructor; [split; vm_compute; reflexivity |]). constructor.
  - vm_compute. reflexivity.
Defined.

(** C6 fails as stated: the total of a category is rounded before it
    enters the grand total.  With 0.1 and 0.1 under one category and 0.6
    and 0.7 under another the totals 0.2 and 1.2999999999999998 add up
    to 1.4999999999999998, and the four amounts to 1.5. *)
Lemma category_totals_sum_rounds :
  ~ (forall (records : list Expense.t) (totals : list number),
       Slice.amount <$> getCategoryTotals records = JsObject.PNum <$> totals ->
       sum totals = sum (Expense.amount <$> records)).
Proof.
  intros H.
  specialize (H [priced 4 "0.1" "Food"; priced 3 "0.1" "Food";
                 priced 2 "0.6" "Bus"; priced 1 "0.7" "Bus"]
                [parseFloat (js "0.2"); parseFloat (js "1.2999999999999998")]).
  assert (Htotals :
    sum [parseFloat (js "0.2"); parseFloat (js "1.2999999999999998")]
    = parseFloat (js "1.4999999999999998")) by (vm_compute; reflexivity).
  assert (Hamounts :
    sum (Expense.amount
           <$> [priced 4 "0.1" "Food"; priced 3 "0.1" "Food";
                priced 2 "0.6" "Bus"; priced 1 "0.7" "Bus"])
    = parseFloat (js "1.5")) by (vm_compute; reflexivity).
  rewrite Htotals, Hamounts in H.
  assert (Hne : parseFloat (js "1.4999999999999998") <> parseFloat (js "1.5"))
    by (vm_compute; discriminate).
  apply Hne, H. vm_compute. reflexivity.
Qed.

(** The order in which the sums are taken does not matter there: no
    order of the totals and no order of the amounts give the same sum. *)
Lemma category_totals_sum_rounds_in_any_order :
  let records :=
    [priced 4 "0.1" "Food"; priced 3 "0.1" "Food";
     priced 2 "0.6" "Bus"; priced 1 "0.7" "Bus"] in
  exists totals : list number,
    Slice.amount <$> getCategoryTotals records = JsObject.PNum <$> totals
    /\ forall l t : list number,
         l ≡ₚ Expense.amount <$> records -> t ≡ₚ totals -> sum t <> sum l.
Proof.
  intros records.
  exists [parseFloat (js "0.2"); parseFloat (js "1.2999999999999998")].
  split; [vm_compute; reflexivity |].
  intros l t Hl Ht. symmetry in Hl, Ht. apply permutations_Permutation in Hl, Ht.
  revert t Ht. apply Forall_forall. revert l Hl. apply Forall_forall.
  apply (bool_decide_unpack _). vm_compute. exact I.
Qed.

(** *** Categories named like a property of [Object.prototype] *)

(** The record filed under [__proto__] never reaches the chart: the read
    finds [Object.prototype], and the write goes to a setter that ignores
    it. *)
Lemma category_totals_drops_proto :
  getCategoryTotals [priced 1 "10" "__proto__"] = [].
Proof. vm_compute. reflexivity. Qed.

(** Under [constructor] the total is no number but the text of the
    inherited function followed by the amounts. *)
Lemma category_totals_constructor_text :
  Slice.amount <$> getCategoryTotals [priced 2 "10" "constructor"; priced 1 "5" "constructor"]
  = [JsObject.PText (js "constructor") [parseFloat (js "10"); parseFloat (js "5")]].
Proof. vm_compute. reflexivity. Qed.

(** *** Amounts that are not greater than zero *)

(** [exp.amount || 0] counts an amount that is NaN as 0. *)
Lemma category_totals_counts_NaN_as_zero :
  Slice.amount
    <$> getCategoryTotals [Expense.mk 2 JsNumber.NaN (Some (js "Food")) None;
                           priced 1 "5" "Food"]
  = [JsObject.PNum (parseFloat (js "5"))]
  /\ group_total (js "Food")
       [Expense.mk 2 JsNumber.NaN (Some (js "Food")) None; priced 1 "5" "Food"]
     = JsNumber.NaN.
Proof. split; vm_compute; reflexivity. Qed.

(** [if (!totals[category]) totals[category] = 0] starts a total afresh
    once it has become NaN. *)
Lemma category_totals_restarts_after_NaN :
  Slice.amount
    <$> getCategoryTotals [priced 3 "Infinity" "Food"; priced 2 "-Infinity" "Food";
                           priced 1 "5" "Food"]
  = [JsObject.PNum (parseFloat (js "5"))]
  /\ group_total (js "Food")
       [priced 3 "Infinity" "Food"; priced 2 "-Infinity" "Food"; priced 1 "5" "Food"]
     = JsNumber.NaN.
Proof. split; vm_compute; reflexivity. Qed.

(** ** The scenarios of the specification *)

Example scenario_add_lunch :
  expenses (ui (run [Add (js "12.50") (js "Food") (js "lunch")]
                  (final (setup (fresh_world "" "" "")))))
  = [Expense.mk 1 (parseFloat (js "12.5")) (Some (js "Food")) (Some (js "lunch"))].
Proof. vm_compute. reflexivity. Qed.

Example scenario_add_negative :
  Db.select_all_desc
    (db (run [Add (js "-5") (js "Food") (js "")] (final (setup (fresh_world "" "" "")))))
  = inr [].
Proof. vm_compute. reflexivity. Qed.

Example scenario_add_blank_category :
  Db.select_all_desc
    (db (run [Add (js "20") (js "  ") (js "")] (final (setup (fresh_world "" "" "")))))
  = inr [].
Proof. vm_compute. reflexivity. Qed.

Example scenario_totals :
  (fun s => (Slice.name s, Slice.amount s))
    <$> getCategoryTotals
          (expenses (ui (run [Add (js "10") (js "Food") (js "");
                              Add (js "5") (js "Food") (js "")]
                           (final (setup (fresh_world "" "" ""))))))
  = [(js "Food", JsObject.PNum (parseFloat (js "15")))].
Proof. vm_compute. reflexivity. Qed.

Example scenario_add_delete :
  expenses (ui (run [Add (js "10") (js "Food") (js ""); Delete 1]
                  (final (setup (fresh_world "" "" "")))))
  = [].
Proof. vm_compute. reflexivity. Qed.

Example scenario_id_not_reused :
  Expense.id <$> expenses (ui (run [Add (js "10") (js "Food") (js ""); Delete 1;
                                    Add (js "4") (js "Bus") (js "")]
                                 (final (setup (fresh_world "" "" "")))))
  = [2].
Proof. vm_compute. reflexivity. Qed.

(** * Further properties of the component *)

(** ** The handlers, further *)

Lemma submitted_well_formed (h : hooks) : rejects h = false -> well_formed (submitted h).
Proof.
  unfold rejects. intros H. apply orb_false_iff in H as [Ha Hc].
  apply negb_false_iff, truthy_trim in Hc. apply amount_guard in Ha.
  unfold well_formed, submitted. cbn [Db.row_amount Db.row_category Db.row_note].
  split; [done |]. split; [done |]. split; [apply trim_trimmed |].
  intros n. destruct (JsString.truthy (JsString.trim (note h))) eqn:Hn; [| done].
  intros [= <-]. split; [by apply truthy_trim | apply trim_trimmed].
Qed.

Lemma press_db (o : op) (w : world) (tb : Db.table) :
  db w = Some tb ->
  db (press o w)
  = Some match o with
         | Add a c n =>
             if rejects (mk_hooks (expenses (ui w)) a c n) then tb
             else Db.mk_table
                    (<[Db.next_rowid tb := submitted (mk_hooks (expenses (ui w)) a c n)]>
                       (Db.rows tb))
                    (Db.next_rowid tb)
         | Delete i => Db.mk_table (delete i (Db.rows tb)) (Db.sequence tb)
         end.
Proof.
  intros Hdb. destruct o as [a c n | i]; simpl.
  - change (ui (typed a c n w)) with (mk_hooks (expenses (ui w)) a c n).
    destruct (rejects (mk_hooks (expenses (ui w)) a c n)) eqn:Hrej.
    + by rewrite addExpense_rejects.
    + by rewrite (addExpense_accepts _ tb).
  - by rewrite (deleteExpense_runs _ tb).
Qed.

Lemma rejects_expenses (l l' : list Expense.t) (a c n : jsstr) :
  rejects (mk_hooks l a c n) = rejects (mk_hooks l' a c n).
Proof. reflexivity. Qed.

Lemma press_synced (o : op) (w : world) (tb : Db.table) :
  db w = Some tb -> synced w -> synced (press o w).
Proof.
  intros Hdb Hs. unfold synced in *. destruct o as [a c n | i]; simpl.
  - destruct (rejects (ui (typed a c n w))) eqn:Hrej.
    + by rewrite addExpense_rejects.
    + rewrite (addExpense_accepts _ tb) by done. cbn [final db ui expenses cleared].
      unfold Db.select_all_desc. cbn [Db.rows].
      by rewrite order_by_id_desc_insert by apply next_rowid_above_rows.
  - rewrite (deleteExpense_runs _ tb) by done. cbn [final db ui expenses].
    unfold Db.select_all_desc. cbn [Db.rows]. by rewrite order_by_id_desc_delete.
Qed.

Lemma setup_synced (w : world) :
  synced (final (setup w)) /\ db (final (setup w)) = Db.create_if_not_exists (db w).
Proof.
  destruct (setup_runs w) as (tb & Htb & ->). unfold synced. simpl.
  by rewrite Htb.
Qed.

Lemma run_snoc (ops : list op) (o : op) (w : world) :
  run (ops ++ [o]) w = press o (run ops w).
Proof. unfold run. by rewrite fold_left_app. Qed.

Lemma run_table (ops : list op) (w : world) (tb : Db.table) :
  db w = Some tb -> exists tb', db (run ops w) = Some tb'.
Proof. intros H. destruct (run_sequence ops w tb H) as (tb' & ? & _). eauto. Qed.

Lemma mounted_table (w : world) : exists tb, db (final (setup w)) = Some tb.
Proof.
  destruct (setup_synced w) as [_ ->]. destruct (db w); simpl; eauto.
Qed.

(** X1. While the database file has no table [expenses] every statement
    fails with SQLite's no-such-table error: an add that passes the
    guards rejects after its INSERT statement, a delete rejects for every
    id, and a load rejects; the database, the list and the three fields
    are left as they were, and no later call of the handler is made. *)
Theorem handlers_reject_without_table (w : world) :
  db w = None ->
  (rejects (ui w) = false ->
   addExpense w
   = Rejected Db.NoSuchTable
       (mk_world None (ui w)
          (calls w ++ [RunInsert (Db.row_amount (submitted (ui w)))
                         (Db.row_category (submitted (ui w)))
                         (Db.row_note (submitted (ui w)))])))
  /\ (forall i, deleteExpense i w
                = Rejected Db.NoSuchTable (mk_world None (ui w) (calls w ++ [RunDelete i])))
  /\ loadExpenses w
     = Rejected Db.NoSuchTable (mk_world None (ui w) (calls w ++ [GetAll])).
Proof.
  intros Hdb. split; [| split].
  - unfold rejects. intros H. apply orb_false_iff in H as [Ha Hc].
    apply negb_false_iff in Hc.
    unfold addExpense, mbind, async_bind, read. rewrite Ha, Hc. cbn [negb].
    unfold runAsync_insert, statement, mbind, async_bind, log, Db.insert.
    cbn [db ui calls]. by rewrite Hdb.
  - intros i. unfold deleteExpense, runAsync_delete, statement, mbind, async_bind,
      log, Db.delete_id. cbn [db ui calls]. by rewrite Hdb.
  - unfold loadExpenses, getAllAsync, statement, mbind, async_bind, log,
      Db.select_all_desc. cbn [db ui calls]. by rewrite Hdb.
Qed.

Lemma handlers_reject_without_table_witness :
  addExpense (fresh_world "12.50" "Food" "")
  = Rejected Db.NoSuchTable
      (mk_world None (ui (fresh_world "12.50" "Food" ""))
         [RunInsert (parseFloat (js "12.50")) (js "Food") None])
  /\ (forall i, deleteExpense i (fresh_world "12.50" "Food" "")
                = Rejected Db.NoSuchTable
                    (mk_world None (ui (fresh_world "12.50" "Food" "")) [RunDelete i]))
  /\ loadExpenses (fresh_world "12.50" "Food" "")
     = Rejected Db.NoSuchTable
         (mk_world None (ui (fresh_world "12.50" "Food" "")) [GetAll]).
Proof.
  destruct (handlers_reject_without_table (fresh_world "12.50" "Food" "") eq_refl)
    as (Hadd & Hdelete & Hload).
  split; [exact (Hadd eq_refl) | split; [exact Hdelete | exact Hload]].
Defined.

(** X2. Once the component has been mounted no handler rejects, whatever
    has been typed and pressed since: [addExpense] with any three field
    texts, [deleteExpense] with any id, [loadExpenses] and [setup] all
    resolve. *)
Theorem handlers_resolve_once_mounted (w : world) (ops : list op) :
  let w1 := run ops (final (setup w)) in
  (forall a c n, exists w', addExpense (typed a c n w1) = Resolved tt w')
  /\ (forall i, exists w', deleteExpense i w1 = Resolved tt w')
  /\ (exists w', loadExpenses w1 = Resolved tt w')
  /\ (exists w', setup w1 = Resolved tt w').
Proof.
  intros w1. destruct (mounted_table w) as (tb0 & Htb0).
  destruct (run_table ops _ _ Htb0) as (tb & Htb). fold w1 in Htb.
  split; [| split; [| split]].
  - intros a c n. destruct (rejects (ui (typed a c n w1))) eqn:Hrej.
    + rewrite addExpense_rejects by done. eauto.
    + rewrite (addExpense_accepts _ tb) by done. eauto.
  - intros i. rewrite (deleteExpense_runs _ tb) by done. eauto.
  - rewrite (loadExpenses_runs _ tb) by done. eauto.
  - destruct (setup_runs w1) as (tb' & _ & ->). eauto.
Qed.

Lemma run_synced (w : world) (ops : list op) :
  synced (run ops (final (setup w))).
Proof.
  induction ops as [|o ops IH] using rev_ind.
  - apply setup_synced.
  - rewrite run_snoc. destruct (mounted_table w) as (tb0 & Htb0).
    destruct (run_table ops _ _ Htb0) as (tb & Htb).
    by apply (press_synced o _ tb).
Qed.

Lemma run_tidy (w : world) (ops : list op) :
  tidy (db w) -> tidy (db (run ops (final (setup w)))).
Proof.
  intros Hw. induction ops as [|o ops IH] using rev_ind.
  - destruct (setup_synced w) as [_ Hdb]. simpl. rewrite Hdb.
    intros tb k r Htb Hk. destruct (db w) as [tb0|] eqn:Hdbw; simpl in Htb.
    + injection Htb as <-. by apply (Hw tb0 k).
    + injection Htb as <-. cbn [Db.rows] in Hk. by rewrite lookup_empty in Hk.
  - rewrite run_snoc. destruct (mounted_table w) as (tb0 & Htb0).
    destruct (run_table ops _ _ Htb0) as (tb & Htb).
    intros tb' k r Htb' Hk. rewrite (press_db o _ tb Htb) in Htb'.
    injection Htb' as <-. destruct o as [a c n | i].
    + destruct (rejects _) eqn:Hrej; [by apply (IH tb k) |].
      cbn [Db.rows] in Hk. destruct (decide (Db.next_rowid tb = k)) as [<- | Hne].
      * rewrite lookup_insert_eq in Hk. injection Hk as <-.
        by apply submitted_well_formed.
      * rewrite lookup_insert_ne in Hk by done. by apply (IH tb k).
    + cbn [Db.rows] in Hk. apply lookup_delete_Some in Hk as [_ Hk].
      by apply (IH tb k).
Qed.

(** X3. After mounting and any sequence of adds and deletes the list in
    the state is what [SELECT * FROM expenses ORDER BY id DESC] returns
    on the database as it is then. *)
Theorem list_follows_table (w : world) (ops : list op) :
  synced (run ops (final (setup w))).
Proof. apply run_synced. Qed.

(** X4. If every stored row has an amount greater than zero, a category
    that is not empty and has no white space at either end, and a note
    that is NULL or a non-empty text with no white space at either end,
    then so has every row after mounting and any sequence of adds and
    deletes. *)
Theorem stored_rows_well_formed (w : world) (ops : list op) :
  tidy (db w) -> tidy (db (run ops (final (setup w)))).
Proof. apply run_tidy. Qed.

Lemma stored_rows_well_formed_witness :
  tidy (db (run [Add (js " 7 ") (js " Bus ") (js " "); Delete 1;
                 Add (js "2.5") (js "School  books ") (js " new term")]
              (final (setup (sample_world "" "" ""))))).
Proof.
  apply (stored_rows_well_formed (sample_world "" "" "")).
  apply sample_tidy.
Defined.

Lemma largest_elem (ks : list Z) (j : Z) : Db.largest ks = Some j -> j ∈ ks.
Proof.
  revert j. induction ks as [|k ks IH]; intros j; [done |]. simpl.
  destruct (Db.largest ks) as [j'|]; intros [= <-].
  - destruct (Z.max_spec k j') as [[_ ->] | [_ ->]]; [right; by apply IH | left].
  - left.
Qed.

Lemma next_rowid_counted (tb : Db.table) :
  counted tb -> 0 <= Db.sequence tb -> Db.next_rowid tb = Db.sequence tb + 1.
Proof.
  intros Hc H0. unfold Db.next_rowid.
  destruct (Db.largest _) as [j|] eqn:Hj; [| lia].
  apply largest_elem, list_elem_of_fmap in Hj as ([k r] & -> & Hin).
  apply elem_of_map_to_list in Hin. simpl.
  specialize (Hc k (ltac:(eauto))). lia.
Qed.

(** X5. An accepted add followed by a press on the delete button of the
    new row, the first of the list, gives back the old list and the old
    rows of the table; only the AUTOINCREMENT counter differs, which is
    now the id of the row deleted and greater than before. *)
Theorem add_then_delete_restores_list (w : world) (tb : Db.table) :
  db w = Some tb ->
  rejects (ui w) = false ->
  exists w1 r w2 tb2,
    addExpense w = Resolved tt w1
    /\ head (expenses (ui w1)) = Some r
    /\ View.onPress (View.renderExpense r) w1 = Resolved tt w2
    /\ expenses (ui w2) = Db.order_by_id_desc (Db.rows tb)
    /\ db w2 = Some tb2
    /\ Db.rows tb2 = Db.rows tb
    /\ Db.sequence tb2 = Expense.id r
    /\ Db.sequence tb < Db.sequence tb2.
Proof.
  intros Hdb Hacc.
  eexists _, (Db.to_expense (Db.next_rowid tb, submitted (ui w))), _, _.
  split; [by apply addExpense_accepts |]. cbn [ui expenses cleared head].
  split; [done |]. cbn [View.renderExpense View.onPress Db.to_expense Expense.id fst].
  split; [by apply deleteExpense_runs |]. cbn [ui expenses db Db.rows Db.sequence].
  assert (Hfresh : Db.rows tb !! Db.next_rowid tb = None).
  { destruct (Db.rows tb !! Db.next_rowid tb) eqn:Hk; [| done].
    pose proof (next_rowid_above_rows tb (Db.next_rowid tb) (ltac:(eauto))). lia. }
  split.
  - rewrite <- order_by_id_desc_delete. by rewrite delete_insert_id.
  - split; [done |]. cbn [Db.rows Db.sequence].
    split; [by apply delete_insert_id |]. split; [done |].
    apply next_rowid_above_sequence.
Qed.

Lemma add_then_delete_restores_list_witness :
  exists w1 r w2 tb2,
    addExpense (sample_world "9" "Bus" "") = Resolved tt w1
    /\ head (expenses (ui w1)) = Some r
    /\ View.onPress (View.renderExpense r) w1 = Resolved tt w2
    /\ expenses (ui w2) = Db.order_by_id_desc (Db.rows sample_table)
    /\ db w2 = Some tb2
    /\ Db.rows tb2 = Db.rows sample_table
    /\ Db.sequence tb2 = Expense.id r
    /\ Db.sequence sample_table < Db.sequence tb2.
Proof.
  apply (add_then_delete_restores_list (sample_world "9" "Bus" "") sample_table).
  - reflexivity.
  - vm_compute. reflexivity.
Defined.

(** X6. Deleting the same id twice leaves the database and the state as
    deleting it once does, and two deletes leave the same database and
    the same state in either order. *)
Theorem deletes_repeat_and_commute (w : world) (tb : Db.table) (i j : Z) :
  db w = Some tb ->
  db (final (deleteExpense i (final (deleteExpense i w)))) = db (final (deleteExpense i w))
  /\ ui (final (deleteExpense i (final (deleteExpense i w)))) = ui (final (deleteExpense i w))
  /\ db (final (deleteExpense j (final (deleteExpense i w))))
     = db (final (deleteExpense i (final (deleteExpense j w))))
  /\ ui (final (deleteExpense j (final (deleteExpense i w))))
     = ui (final (deleteExpense i (final (deleteExpense j w)))).
Proof.
  intros Hdb.
  assert (Hone : forall k w0 tb0, db w0 = Some tb0 ->
    final (deleteExpense k w0)
    = mk_world (Some (Db.mk_table (delete k (Db.rows tb0)) (Db.sequence tb0)))
        (mk_hooks (Db.order_by_id_desc (delete k (Db.rows tb0)))
           (amount (ui w0)) (category (ui w0)) (note (ui w0)))
        (calls w0 ++ [RunDelete k; GetAll;
                      SetExpenses (filter (fun x => Expense.id x <> k)
                                     (Db.order_by_id_desc (Db.rows tb0)))])).
  { intros k w0 tb0 H0. rewrite (deleteExpense_runs _ tb0) by done.
    cbn [final]. by rewrite order_by_id_desc_delete. }
  rewrite !(Hone _ w tb) by done.
  rewrite !(Hone _ (mk_world _ _ _) (Db.mk_table _ _)) by reflexivity.
  cbn [db ui Db.rows Db.sequence amount category note].
  rewrite delete_delete_eq, (delete_delete (Db.rows tb) i j). done.
Qed.

Lemma deletes_repeat_and_commute_witness :
  db (final (deleteExpense 1 (final (deleteExpense 1 (sample_world "" "" "")))))
  = db (final (deleteExpense 1 (sample_world "" "" "")))
  /\ ui (final (deleteExpense 1 (final (deleteExpense 1 (sample_world "" "" "")))))
     = ui (final (deleteExpense 1 (sample_world "" "" "")))
  /\ db (final (deleteExpense 3 (final (deleteExpense 1 (sample_world "" "" "")))))
     = db (final (deleteExpense 1 (final (deleteExpense 3 (sample_world "" "" "")))))
  /\ ui (final (deleteExpense 3 (final (deleteExpense 1 (sample_world "" "" "")))))
     = ui (final (deleteExpense 1 (final (deleteExpense 3 (sample_world "" "" ""))))).
Proof.
  apply (deletes_repeat_and_commute (sample_world "" "" "") sample_table 1 3).
  reflexivity.
Defined.

(** X7. On a database file that had no table, after mounting and any
    sequence of adds and deletes the AUTOINCREMENT counter is the number
    of adds that passed the guards, the next id is one more, and every
    row has an id between 1 and the counter. *)
Theorem ids_count_accepted_adds (w : world) (ops : list op) :
  db w = None ->
  exists tb,
    db (run ops (final (setup w))) = Some tb
    /\ Db.sequence tb = Z.of_nat (length (filter accepted_add ops))
    /\ Db.next_rowid tb = Z.of_nat (length (filter accepted_add ops)) + 1
    /\ forall k, is_Some (Db.rows tb !! k) -> 1 <= k <= Db.sequence tb.
Proof.
  intros Hnone.
  assert (Hinv : exists tb,
    db (run ops (final (setup w))) = Some tb
    /\ Db.sequence tb = Z.of_nat (length (filter accepted_add ops))
    /\ forall k, is_Some (Db.rows tb !! k) -> 1 <= k <= Db.sequence tb).
  { induction ops as [|o ops (tb & Htb & Hseq & Hkeys)] using rev_ind.
    - destruct (setup_synced w) as [_ Hdb]. rewrite Hnone in Hdb. simpl in Hdb.
      eexists. split; [exact Hdb |]. split; [done |].
      cbn [Db.rows]. intros k [r Hk]. by rewrite lookup_empty in Hk.
    - rewrite run_snoc, (press_db o _ tb Htb), filter_app, length_app.
      assert (Hnext : Db.next_rowid tb = Db.sequence tb + 1).
      { apply next_rowid_counted; [| lia]. intros k Hk. apply Hkeys in Hk. lia. }
      eexists. split; [done |]. destruct o as [a c n | i].
      + rewrite (rejects_expenses _ [] a c n).
        rewrite (filter_cons accepted_add), filter_nil. cbn [accepted_add].
        destruct (rejects (mk_hooks [] a c n)) eqn:Hrej; cbn [negb].
        * rewrite decide_False by (by intros []). cbn [length].
          split; [lia |]. exact Hkeys.
        * rewrite decide_True by done. cbn [length Db.sequence Db.rows].
          split; [lia |]. intros k [r Hk].
          destruct (decide (Db.next_rowid tb = k)) as [<- | Hne]; [lia |].
          rewrite lookup_insert_ne in Hk by done.
          specialize (Hkeys k (ltac:(eauto))). lia.
      + rewrite (filter_cons accepted_add), filter_nil. cbn [accepted_add].
        rewrite decide_False by (by intros []). cbn [length Db.sequence Db.rows].
        split; [lia |]. intros k [r Hk]. apply lookup_delete_Some in Hk as [_ Hk].
        apply Hkeys. eauto. }
  destruct Hinv as (tb & Htb & Hseq & Hkeys). exists tb.
  split; [done |]. split; [done |]. split; [| done].
  rewrite <- Hseq. apply next_rowid_counted; [| lia].
  intros k Hk. apply Hkeys in Hk. lia.
Qed.

Lemma ids_count_accepted_adds_witness :
  exists tb,
    db (run [Add (js "3") (js "Bus") (js ""); Add (js "x") (js "Bus") (js ""); Delete 1;
             Add (js "4") (js "Food") (js "")]
          (final (setup (fresh_world "" "" "")))) = Some tb
    /\ Db.sequence tb
       = Z.of_nat (length (filter accepted_add
           [Add (js "3") (js "Bus") (js ""); Add (js "x") (js "Bus") (js ""); Delete 1;
            Add (js "4") (js "Food") (js "")]))
    /\ Db.next_rowid tb
       = Z.of_nat (length (filter accepted_add
           [Add (js "3") (js "Bus") (js ""); Add (js "x") (js "Bus") (js ""); Delete 1;
            Add (js "4") (js "Food") (js "")])) + 1
    /\ forall k, is_Some (Db.rows tb !! k) -> 1 <= k <= Db.sequence tb.
Proof.
  apply (ids_count_accepted_adds (fresh_world "" "" "")). reflexivity.
Defined.

(** X8. On a created table [addExpense] changes the database exactly
    when [parseFloat(amount)] is greater than zero and the category has a
    character that is not white space. *)
Theorem add_changes_table_iff (w : world) (tb : Db.table) :
  db w = Some tb ->
  db (final (addExpense w)) <> db w
  <-> JsNumber.ltb JsNumber.zero (parseFloat (amount (ui w))) = true
      /\ Exists (fun c => JsString.is_white_space c = false) (category (ui w)).
Proof.
  intros Hdb. rewrite <- blank_Exists, <- trim_blank. split.
  - intros Hchange. destruct (rejects (ui w)) eqn:Hrej.
    + rewrite addExpense_rejects in Hchange by done. by destruct Hchange.
    + unfold rejects in Hrej. apply orb_false_iff in Hrej as [Ha Hc].
      apply negb_false_iff, truthy_trim in Hc. by apply amount_guard in Ha.
  - intros [Ha Hc]. rewrite (addExpense_accepts _ tb) by (done || by apply accepted).
    cbn [final db]. rewrite Hdb. intros [= Heq].
    apply (f_equal Db.sequence) in Heq. cbn [Db.sequence] in Heq.
    pose proof (next_rowid_above_sequence tb). lia.
Qed.

Lemma add_changes_table_iff_witness :
  db (final (addExpense (sample_world "2" " x " ""))) <> db (sample_world "2" " x " "")
  <-> JsNumber.ltb JsNumber.zero (parseFloat (amount (ui (sample_world "2" " x " "")))) = true
      /\ Exists (fun c => JsString.is_white_space c = false)
           (category (ui (sample_world "2" " x " ""))).
Proof. apply (add_changes_table_iff (sample_world "2" " x " "") sample_table). reflexivity. Defined.

(** X9. An accepted add stores the category and the note with the white
    space at both ends removed and nothing else: the text of the field is
    the stored text between two runs of white space, and the stored text
    neither begins nor ends with white space.  A note of white space only
    is stored as NULL, any other note as a non-empty text. *)
Theorem add_drops_outer_whitespace_only (w : world) (tb : Db.table) :
  db w = Some tb ->
  rejects (ui w) = false ->
  exists w' tb' r,
    addExpense w = Resolved tt w'
    /\ db w' = Some tb'
    /\ Db.rows tb' !! Db.next_rowid tb = Some r
    /\ (exists l t, category (ui w) = l ++ Db.row_category r ++ t /\ blank l /\ blank t)
    /\ trimmed (Db.row_category r)
    /\ (blank (note (ui w)) /\ Db.row_note r = None
        \/ exists l n t, Db.row_note r = Some n /\ note (ui w) = l ++ n ++ t
                         /\ blank l /\ blank t /\ trimmed n /\ n <> []).
Proof.
  intros Hdb Hacc. eexists _, _, (submitted (ui w)).
  split; [by apply addExpense_accepts |]. cbn [db]. split; [done |].
  cbn [Db.rows]. split; [by rewrite lookup_insert_eq |].
  unfold submitted. cbn [Db.row_category Db.row_note].
  split; [apply trim_split |]. split; [apply trim_trimmed |].
  destruct (JsString.truthy (JsString.trim (note (ui w)))) eqn:Hn.
  - right. destruct (trim_split (note (ui w))) as (l & t & Hs & Hl & Ht).
    exists l, (JsString.trim (note (ui w))), t.
    split; [done |]. split; [done |]. split; [done |]. split; [done |].
    split; [apply trim_trimmed | by apply truthy_trim].
  - left. split; [| done]. apply trim_blank.
    by destruct (JsString.trim (note (ui w))).
Qed.

Lemma add_drops_outer_whitespace_only_witness :
  exists w' tb' r,
    addExpense (sample_world "2" "  School  books " " ") = Resolved tt w'
    /\ db w' = Some tb'
    /\ Db.rows tb' !! Db.next_rowid sample_table = Some r
    /\ (exists l t, category (ui (sample_world "2" "  School  books " " "))
                    = l ++ Db.row_category r ++ t /\ blank l /\ blank t)
    /\ trimmed (Db.row_category r)
    /\ (blank (note (ui (sample_world "2" "  School  books " " "))) /\ Db.row_note r = None
        \/ exists l n t, Db.row_note r = Some n
                         /\ note (ui (sample_world "2" "  School  books " " ")) = l ++ n ++ t
                         /\ blank l /\ blank t /\ trimmed n /\ n <> []).
Proof.
  apply (add_drops_outer_whitespace_only (sample_world "2" "  School  books " " ")
           sample_table).
  - reflexivity.
  - vm_compute. reflexivity.
Defined.

(** ** The chart, further *)

Section ChartFacts.

Import JsObject.

#[local] Instance index_le_transitive : Transitive index_le.
Proof. unfold index_le; intros a b c; lia. Qed.

#[local] Instance index_le_connected : Total index_le.
Proof. unfold index_le; intros a b; lia. Qed.

Lemma palette_lookup (i : nat) :
  COLORS.pieChartColors !! (i mod length COLORS.pieChartColors)%nat
  = Some (nth (i mod length COLORS.pieChartColors) COLORS.pieChartColors []).
Proof.
  assert (Hlt : (i mod length COLORS.pieChartColors < length COLORS.pieChartColors)%nat)
    by (apply Nat.mod_upper_bound; discriminate).
  apply lookup_lt_is_Some in Hlt as [c Hc]. rewrite Hc. f_equal.
  by rewrite (nth_lookup_Some _ _ _ _ Hc).
Qed.

Lemma palette_NoDup : NoDup COLORS.pieChartColors.
Proof. apply (bool_decide_unpack _). vm_compute. exact I. Qed.

Lemma slice_lookup (records : list Expense.t) (i : nat) (s : Slice.t) :
  getCategoryTotals records !! i = Some s ->
  exists k p, s = Slice.mk k p
                    (nth (i mod length COLORS.pieChartColors) COLORS.pieChartColors [])
                    COLORS.darkText 14.
Proof.
  unfold getCategoryTotals. rewrite list_lookup_imap.
  destruct (entries _ !! i) as [[k p]|]; [| done]. intros [= <-]. eauto.
Qed.

Lemma filter_fst {B} (P : jsstr -> Prop) `{forall k, Decision (P k)}
    (o : list (jsstr * B)) :
  (filter (fun kv : jsstr * B => P kv.1) o).*1 = filter P o.*1.
Proof.
  induction o as [|[k p] o IH]; [done |].
  rewrite fmap_cons, (filter_cons (fun kv : jsstr * B => P kv.1)), (filter_cons P).
  cbn [fst]. destruct (decide (P k)); [rewrite fmap_cons; cbn [fst] |]; by rewrite IH.
Qed.

Lemma filter_none {A} (P : A -> Prop) `{forall x, Decision (P x)} (l : list A) :
  Forall (fun x => ~ P x) l -> filter P l = [].
Proof.
  induction 1 as [|x l Hx Hl IH]; [done |]. by rewrite (filter_cons_False P), IH.
Qed.

Lemma entries_names (o : JsObject.t) :
  exists idx,
    (entries o).*1 = idx ++ filter (fun k => array_index k = None) o.*1
    /\ idx ≡ₚ filter (fun k => is_Some (array_index k)) o.*1
    /\ StronglySorted index_order idx.
Proof.
  exists ((merge_sort index_le (indexed o)).*2.*1). repeat split.
  - unfold entries. rewrite fmap_app. f_equal.
    unfold named. exact (filter_fst (fun k => array_index k = None) o).
  - rewrite merge_sort_Permutation, indexed_values.
    pose proof (filter_fst (fun k => is_Some (array_index k)) o) as Hk.
    cbv beta in Hk. by rewrite Hk.
  - apply sorted_by_index.
    + apply StronglySorted_merge_sort; apply _.
    + rewrite merge_sort_Permutation. apply indexed_index.
Qed.

Lemma define_keys (o : JsObject.t) (k : jsstr) (p : prim) :
  (define o k p).*1 = if decide (k ∈ o.*1) then o.*1 else o.*1 ++ [k].
Proof.
  induction o as [|[k' p'] o IH]; [done |]. cbn [define].
  destruct (JsString.eqb k k') eqn:Heq.
  - apply eqb_eq in Heq as ->. rewrite !fmap_cons. cbn [fst].
    by rewrite decide_True by left.
  - apply eqb_neq in Heq. rewrite !fmap_cons, IH. cbn [fst].
    destruct (decide (k ∈ o.*1)).
    + by rewrite decide_True by (by right).
    + by rewrite decide_False by (rewrite elem_of_cons; tauto).
Qed.

Lemma set_keys (o : JsObject.t) (k : jsstr) (p : prim) :
  (set o k p).*1 = keys_after k o.*1.
Proof.
  unfold set, keys_after. destruct (JsString.eqb k (js "__proto__")) eqn:Heq.
  - apply eqb_eq in Heq. by rewrite decide_True.
  - apply eqb_neq in Heq. rewrite decide_False by done. apply define_keys.
Qed.

Lemma keys_after_twice (k : jsstr) (ks : list jsstr) :
  keys_after k (keys_after k ks) = keys_after k ks.
Proof.
  unfold keys_after. destruct (decide (k = js "__proto__")); [done |].
  destruct (decide (k ∈ ks)) as [Hin | Hnotin].
  - by rewrite decide_True.
  - rewrite decide_True; [done |]. apply elem_of_app. right. left.
Qed.

Lemma tally_keys (o : JsObject.t) (exp : Expense.t) :
  (tally o exp).*1 = keys_after (label exp) o.*1.
Proof.
  unfold tally. fold (label exp). rewrite set_keys.
  destruct (negb _); [| done]. by rewrite set_keys, keys_after_twice.
Qed.

Lemma fold_tally_keys (l : list Expense.t) :
  (fold_left tally l []).*1
  = first_seen (filter (fun k => k <> js "__proto__") (label <$> l)).
Proof.
  induction l as [|r l IH] using rev_ind; [done |].
  rewrite fold_left_app. cbn [fold_left]. rewrite tally_keys, IH, fmap_app, filter_app.
  change (label <$> [r]) with [label r]. unfold keys_after.
  rewrite (filter_cons (fun k => k <> js "__proto__")), filter_nil.
  destruct (decide (label r = js "__proto__")) as [Heq | Hne].
  - rewrite (decide_False (P := label r <> js "__proto__")) by (by intros H; apply H).
    by rewrite app_nil_r.
  - rewrite (decide_True (P := label r <> js "__proto__")) by done.
    rewrite first_seen_snoc.
    destruct (decide (label r ∈ first_seen _)) as [Hin | Hnotin].
    + by rewrite decide_True by (by apply elem_of_first_seen).
    + by rewrite decide_False by (by rewrite <- elem_of_first_seen).
Qed.

End ChartFacts.

(** X10. The slice at position [i] has the colour at position [i mod 8]
    of [COLORS.pieChartColors]; two slices have the same colour exactly
    when their positions are equal modulo 8, so the ninth category shares
    the colour of the first.  Every slice has the legend colour
    [COLORS.darkText] and the legend font size 14. *)
Theorem slice_colours_cycle (records : list Expense.t) (i j : nat) (s t : Slice.t) :
  getCategoryTotals records !! i = Some s ->
  getCategoryTotals records !! j = Some t ->
  COLORS.pieChartColors !! (i mod 8)%nat = Some (Slice.color s)
  /\ (Slice.color s = Slice.color t <-> (i mod 8 = j mod 8)%nat)
  /\ Slice.legendFontColor s = COLORS.darkText
  /\ Slice.legendFontSize s = 14.
Proof.
  intros Hs Ht.
  apply slice_lookup in Hs as (k & p & ->), Ht as (k' & p' & ->).
  cbn [Slice.color Slice.legendFontColor Slice.legendFontSize].
  pose proof (palette_lookup i) as Hi. pose proof (palette_lookup j) as Hj.
  change (length COLORS.pieChartColors) with 8%nat in *.
  split; [done |]. split; [| done]. split.
  - intros Heq. rewrite <- Heq in Hj.
    by apply (NoDup_lookup _ _ _ _ palette_NoDup Hi Hj).
  - by intros ->.
Qed.

Lemma slice_colours_cycle_witness :
  exists s t,
    getCategoryTotals [priced 2 "650" "Rent"; priced 1 "40" "Food"] !! 0%nat = Some s
    /\ getCategoryTotals [priced 2 "650" "Rent"; priced 1 "40" "Food"] !! 1%nat = Some t
    /\ COLORS.pieChartColors !! (0 mod 8)%nat = Some (Slice.color s)
    /\ (Slice.color s = Slice.color t <-> (0 mod 8 = 1 mod 8)%nat)
    /\ Slice.legendFontColor s = COLORS.darkText
    /\ Slice.legendFontSize s = 14.
Proof.
  eexists _, _. split; [vm_compute; reflexivity |].
  split; [vm_compute; reflexivity |].
  apply (slice_colours_cycle [priced 2 "650" "Rent"; priced 1 "40" "Food"] 0 1);
    vm_compute; reflexivity.
Defined.

Lemma names_of_totals (records : list Expense.t) :
  let names := Slice.name <$> getCategoryTotals records in
  let labels :=
    first_seen (filter (fun k => k <> js "__proto__") (label <$> records)) in
  (exists idx,
     names = idx ++ filter (fun k => JsObject.array_index k = None) labels
     /\ idx ≡ₚ filter (fun k => is_Some (JsObject.array_index k)) labels
     /\ StronglySorted index_order idx)
  /\ names ≡ₚ labels
  /\ NoDup names
  /\ (length (getCategoryTotals records) <= length records)%nat.
Proof.
  intros names labels. unfold names, getCategoryTotals. rewrite imap_names.
  assert (Hperm : (JsObject.entries (fold_left tally records [])).*1 ≡ₚ labels)
    by (by rewrite entries_Permutation, fold_tally_keys).
  split.
  { destruct (entries_names (fold_left tally records [])) as (idx & H1 & H2 & H3).
    rewrite fold_tally_keys in H1, H2. by exists idx. }
  split; [done |]. split; [rewrite Hperm; apply NoDup_first_seen |].
  rewrite length_imap, <- (length_fmap fst), Hperm.
  unfold labels. clear.
  assert (Hlen : forall ks, (length (first_seen ks) <= length ks)%nat).
  { induction ks as [|k ks IH]; simpl; [lia |].
    pose proof (length_filter (fun x => x <> k) (first_seen ks)). lia. }
  etrans; [apply Hlen |]. etrans; [apply length_filter |]. by rewrite length_fmap.
Qed.

(** X11. The names of the slices are the distinct labels of the records
    other than [__proto__], each once: first the labels that are array
    indices, in ascending numeric order, then the other labels in the
    order of their first record.  There are at most as many slices as
    records. *)
Theorem slice_names (records : list Expense.t) :
  let names := Slice.name <$> getCategoryTotals records in
  let labels :=
    first_seen (filter (fun k => k <> js "__proto__") (label <$> records)) in
  (exists idx,
     names = idx ++ filter (fun k => JsObject.array_index k = None) labels
     /\ idx ≡ₚ filter (fun k => is_Some (JsObject.array_index k)) labels
     /\ StronglySorted index_order idx)
  /\ names ≡ₚ labels
  /\ NoDup names
  /\ (length (getCategoryTotals records) <= length records)%nat.
Proof. apply names_of_totals. Qed.

Lemma no_slice_iff (records : list Expense.t) :
  getCategoryTotals records = []
  <-> Forall (fun exp => label exp = js "__proto__") records.
Proof.
  destruct (names_of_totals records) as (_ & Hperm & _ & _). split.
  - intros Hout. rewrite Hout in Hperm. symmetry in Hperm.
    apply Permutation_nil_r in Hperm. apply Forall_forall. intros r Hr.
    destruct (decide (label r = js "__proto__")) as [| Hne]; [done |]. exfalso.
    assert (Hin : label r ∈ first_seen
              (filter (fun k => k <> js "__proto__") (label <$> records))).
    { apply elem_of_first_seen, list_elem_of_filter. split; [done |].
      by apply list_elem_of_fmap_2. }
    rewrite Hperm in Hin. by apply elem_of_nil in Hin.
  - intros Hall. apply fmap_nil_inv with (f := Slice.name).
    apply Permutation_nil_r. rewrite Hperm.
    replace (filter _ (label <$> records)) with (@nil jsstr); [done |].
    symmetry. apply (filter_none (fun k => k <> js "__proto__")).
    apply Forall_fmap, Forall_forall. intros r Hr Hne.
    rewrite Forall_forall in Hall. by apply Hne, Hall.
Qed.

(** X12. The screen shows a chart with at least one slice exactly when
    some expense of the list has a label other than [__proto__]. *)
Theorem chart_has_a_slice (h : hooks) :
  (exists s ss, View.chart (View.render h) = Some (s :: ss))
  <-> Exists (fun exp => label exp <> js "__proto__") (expenses h).
Proof.
  unfold View.render. cbn [View.chart].
  pose proof (no_slice_iff (expenses h)) as Hnone.
  destruct (expenses h) as [|r l].
  - split; [by intros (s & ss & H) | by intros H; apply Exists_nil in H].
  - cbn [length Nat.ltb Nat.leb]. split.
    + intros (s & ss & [= Hout]).
      apply not_Forall_Exists; [apply _ |]. intros Hall.
      assert (Hproto : Forall (fun exp => label exp = js "__proto__") (r :: l)).
      { eapply Forall_impl; [exact Hall |]. intros x Hx. simpl in Hx.
        by destruct (decide (label x = js "__proto__")). }
      apply Hnone in Hproto. congruence.
    + intros Hex. destruct (getCategoryTotals (r :: l)) as [|s ss]; [| eauto].
      exfalso. destruct Hnone as [Hnone _]. specialize (Hnone eq_refl).
      eapply Exists_not_Forall; [| exact Hnone].
      eapply Exists_impl; [exact Hex |]. auto.
Qed.

(** ** The text of numbers *)

Section TextFacts.

Import View.

Lemma uint_text_revapp (d d' : Decimal.uint) :
  uint_text (Decimal.revapp d d') = rev (uint_text d) ++ uint_text d'.
Proof.
  revert d'. induction d; intros d'; simpl; [done | ..];
    rewrite IHd; simpl; by rewrite <- app_assoc.
Qed.

Lemma uint_text_rev (d : Decimal.uint) :
  uint_text (Decimal.rev d) = rev (uint_text d).
Proof. unfold Decimal.rev. rewrite uint_text_revapp. simpl. by rewrite app_nil_r. Qed.

Lemma uint_text_inj (d d' : Decimal.uint) : uint_text d = uint_text d' -> d = d'.
Proof.
  revert d'. induction d; intros []; simpl; intros [=]; f_equal; auto.
Qed.

Lemma uint_text_digits (d : Decimal.uint) :
  Forall (fun c => ParseFloat.is_digit c = true) (uint_text d).
Proof. induction d; simpl; constructor; done. Qed.

Lemma uint_text_nil (d : Decimal.uint) : uint_text d = [] -> d = Decimal.Nil.
Proof. by destruct d. Qed.

Lemma decimal_inj (n n' : N) : decimal n = decimal n' -> n = n'.
Proof. intros H. by apply DecimalN.Unsigned.to_uint_inj, uint_text_inj. Qed.

Lemma decimal_digits (n : N) :
  Forall (fun c => ParseFloat.is_digit c = true) (decimal n).
Proof. apply uint_text_digits. Qed.

Lemma decimal_nonempty (n : N) : decimal n <> [].
Proof.
  intros H. apply uint_text_nil in H. destruct n as [|p]; [done |].
  by apply (DecimalPos.Unsigned.to_uint_nonnil p).
Qed.

Lemma decimal_pos (p : positive) :
  decimal (N.pos p) = rev (uint_text (DecimalPos.Unsigned.to_lu (N.pos p))).
Proof. unfold decimal. simpl. unfold Pos.to_uint. by rewrite uint_text_rev. Qed.

Lemma decimal_snoc (q d : N) :
  (0 < q)%N -> (d < 10)%N -> decimal (10 * q + d) = decimal q ++ [(48 + d)%N].
Proof.
  intros Hq Hd. destruct q as [|p]; [lia |].
  assert (Hcases : d = 0%N \/ d = 1%N \/ d = 2%N \/ d = 3%N \/ d = 4%N
                   \/ d = 5%N \/ d = 6%N \/ d = 7%N \/ d = 8%N \/ d = 9%N) by lia.
  assert (Hten : exists p', (10 * N.pos p)%N = N.pos p') by (by eexists).
  destruct Hten as [p' Hp'].
  pose proof (DecimalPos.Unsigned.to_ldec_tenfold p) as Hlu.
  set (u := DecimalPos.Unsigned.to_lu (N.pos p)) in *.
  assert (Hu : decimal (N.pos p) = rev (uint_text u)) by apply decimal_pos.
  rewrite Hu.
  assert (Hgo : forall k : N,
    (0 < k)%N -> decimal k = rev (uint_text (DecimalPos.Unsigned.to_lu k))).
  { intros [|k] ?; [lia | apply decimal_pos]. }
  rewrite Hgo by lia.
  destruct Hcases as [-> | [-> | [-> | [-> | [-> | [-> | [-> | [-> | [-> | ->]]]]]]]]].
  - rewrite N.add_0_r, Hlu. done.
  - replace (10 * N.pos p + 1)%N with (N.succ (10 * N.pos p)) by lia.
    rewrite !DecimalPos.Unsigned.to_lu_succ, Hlu. done.
  - replace (10 * N.pos p + 2)%N with (N.succ (N.succ (10 * N.pos p))) by lia.
    rewrite !DecimalPos.Unsigned.to_lu_succ, Hlu. done.
  - replace (10 * N.pos p + 3)%N
      with (N.succ (N.succ (N.succ (10 * N.pos p)))) by lia.
    rewrite !DecimalPos.Unsigned.to_lu_succ, Hlu. done.
  - replace (10 * N.pos p + 4)%N
      with (N.succ (N.succ (N.succ (N.succ (10 * N.pos p))))) by lia.
    rewrite !DecimalPos.Unsigned.to_lu_succ, Hlu. done.
  - replace (10 * N.pos p + 5)%N
      with (N.succ (N.succ (N.succ (N.succ (N.succ (10 * N.pos p)))))) by lia.
    rewrite !DecimalPos.Unsigned.to_lu_succ, Hlu. done.
  - replace (10 * N.pos p + 6)%N
      with (N.succ (N.succ (N.succ (N.succ (N.succ (N.succ (10 * N.pos p)))))))
      by lia.
    rewrite !DecimalPos.Unsigned.to_lu_succ, Hlu. done.
  - replace (10 * N.pos p + 7)%N
      with (N.succ (N.succ (N.succ (N.succ (N.succ (N.succ (N.succ
              (10 * N.pos p)))))))) by lia.
    rewrite !DecimalPos.Unsigned.to_lu_succ, Hlu. done.
  - replace (10 * N.pos p + 8)%N
      with (N.succ (N.succ (N.succ (N.succ (N.succ (N.succ (N.succ (N.succ
              (10 * N.pos p))))))))) by lia.
    rewrite !DecimalPos.Unsigned.to_lu_succ, Hlu. done.
  - replace (10 * N.pos p + 9)%N
      with (N.succ (N.succ (N.succ (N.succ (N.succ (N.succ (N.succ (N.succ
              (N.succ (10 * N.pos p)))))))))) by lia.
    rewrite !DecimalPos.Unsigned.to_lu_succ, Hlu. done.
Qed.

Lemma decimal_small (d : N) : (d < 10)%N -> decimal d = [(48 + d)%N].
Proof.
  intros Hd.
  assert (Hcases : d = 0%N \/ d = 1%N \/ d = 2%N \/ d = 3%N \/ d = 4%N
                   \/ d = 5%N \/ d = 6%N \/ d = 7%N \/ d = 8%N \/ d = 9%N) by lia.
  destruct Hcases as [-> | [-> | [-> | [-> | [-> | [-> | [-> | [-> | [-> | ->]]]]]]]]];
    reflexivity.
Qed.

(** The text with the point: the whole part, then two digits. *)
Lemma with_point_decimal (n : N) :
  with_point (decimal n)
  = decimal (n / 100) ++ [46; 48 + (n / 10) mod 10; 48 + n mod 10]%N.
Proof.
  assert (Hn : n = (10 * (n / 10) + n mod 10)%N) by (apply N.div_mod; lia).
  assert (Hb : (n mod 10 < 10)%N) by (apply N.mod_lt; lia).
  assert (Hdiv : (n / 100 = n / 10 / 10)%N)
    by (by rewrite N.Div0.div_div).
  set (b := (n mod 10)%N) in *. set (t := (n / 10)%N) in *.
  assert (Ht : t = (10 * (t / 10) + t mod 10)%N) by (apply N.div_mod; lia).
  assert (Ha : (t mod 10 < 10)%N) by (apply N.mod_lt; lia).
  rewrite Hdiv. set (a := (t mod 10)%N) in *. set (q := (t / 10)%N) in *.
  destruct (N.eq_dec t 0%N) as [Ht0 | Ht0].
  - assert (q = 0%N /\ a = 0%N) as [-> ->] by lia.
    rewrite Hn, Ht0, N.mul_0_r, N.add_0_l, (decimal_small b) by done. reflexivity.
  - rewrite Hn at 1. rewrite (decimal_snoc t b) by lia.
    destruct (N.eq_dec q 0%N) as [Hq0 | Hq0].
    + rewrite Hq0. rewrite Ht, Hq0, N.mul_0_r, N.add_0_l, (decimal_small a) by done.
      reflexivity.
    + rewrite Ht at 1. rewrite (decimal_snoc q a) by lia.
      pose proof (decimal_nonempty q) as Hne.
      unfold with_point. cbv zeta.
      assert (Hlen : (3 - length ((decimal q ++ [(48 + a)%N]) ++ [(48 + b)%N]) = 0)%nat).
      { rewrite !length_app. simpl. destruct (decimal q); [done | simpl; lia]. }
      rewrite Hlen. cbn [replicate app].
      assert (Hlen2 : (length ((decimal q ++ [(48 + a)%N]) ++ [(48 + b)%N]) - 2
                       = length (decimal q))%nat).
      { rewrite !length_app. simpl. lia. }
      rewrite Hlen2, <- !app_assoc.
      rewrite take_app_length, drop_app_length. done.
Qed.

Lemma with_point_long (ds : jsstr) : (4 <= length (with_point ds))%nat.
Proof.
  unfold with_point. cbv zeta. rewrite !length_app, length_take, length_drop.
  rewrite !length_app, length_replicate. simpl. lia.
Qed.

(** ** The nearest hundredth *)

Lemma hundredths_nearest (m : positive) (e : Z) :
  let n := Z.of_N (hundredths m e) in
  let s := 2 ^ Z.max 0 (- e) in
  - s < 2 * (n * s - 100 * Z.pos m * 2 ^ Z.max 0 e) <= s.
Proof.
  destruct e as [|k|k]; cbv zeta.
  - unfold hundredths. change (2 ^ Z.max 0 (- 0)) with 1.
    change (2 ^ Z.max 0 0) with 1. change (2 ^ 0) with 1.
    rewrite Z2N.id by lia. lia.
  - unfold hundredths. rewrite Z2N.id by (pose proof (Z.pow_pos_nonneg 2 (Z.pos k)); lia).
    replace (Z.max 0 (- Z.pos k)) with 0 by lia.
    replace (Z.max 0 (Z.pos k)) with (Z.pos k) by lia.
    change (2 ^ 0) with 1. lia.
  - unfold hundredths.
    replace (Z.max 0 (- Z.neg k)) with (Z.pos k) by lia.
    replace (Z.max 0 (Z.neg k)) with 0 by lia. change (2 ^ 0) with 1.
    assert (Hs : 0 < 2 ^ Z.pos k) by (apply Z.pow_pos_nonneg; lia).
    set (s := 2 ^ Z.pos k) in *.
    replace (2 ^ (Z.pos k + 1)) with (2 * s) by (unfold s; rewrite Z.pow_add_r; lia).
    rewrite Z2N.id by (apply Z.div_pos; lia).
    pose proof (Z.div_mod (200 * Z.pos m + s) (2 * s) ltac:(lia)) as Hdm.
    pose proof (Z.mod_pos_bound (200 * Z.pos m + s) (2 * s) ltac:(lia)) as Hr.
    nia.
Qed.

Lemma of_Z_hundredths (n : positive) :
  Z.pos n < 2 ^ 53 ->
  exists T e, JsNumber.of_Z (Z.pos n) = S754_finite false T e
    /\ at_least_1e21 T e = false
    /\ hundredths T e = (100 * N.pos n)%N.
Proof.
  intros Hn. destruct (of_Z_pos n Hn) as (T & HT & Hd & Hval).
  exists T, (Z.pos (digits2_pos n) - 53). split; [done |].
  pose proof (digits2_bounds n) as [Hlo Hhi].
  assert (Hle : Z.pos (digits2_pos n) <= 53).
  { destruct (Z_lt_le_dec 53 (Z.pos (digits2_pos n))) as [Hgt |]; [| done].
    assert (2 ^ 53 <= 2 ^ (Z.pos (digits2_pos n) - 1))
      by (apply Z.pow_le_mono_r; lia). lia. }
  destruct (Z.pos (digits2_pos n) - 53) as [|k|k] eqn:He; [| lia |].
  - replace (53 - Z.pos (digits2_pos n)) with 0 in Hval by lia.
    change (2 ^ 0) with 1 in Hval. unfold at_least_1e21, hundredths.
    change (2 ^ 0) with 1. split.
    + apply Z.leb_gt. change (10 ^ 21) with 1000000000000000000000.
      change (2 ^ 53) with 9007199254740992 in Hn. lia.
    + lia.
  - replace (53 - Z.pos (digits2_pos n)) with (Z.pos k) in Hval by lia.
    assert (Hs : 0 < 2 ^ Z.pos k) by (apply Z.pow_pos_nonneg; lia).
    unfold at_least_1e21, hundredths. set (s := 2 ^ Z.pos k) in *.
    replace (2 ^ (Z.pos k + 1)) with (2 * s) by (unfold s; rewrite Z.pow_add_r; lia).
    split.
    + apply Z.leb_gt. change (10 ^ 21) with 1000000000000000000000.
      change (2 ^ 53) with 9007199254740992 in Hn. nia.
    + rewrite Hval. replace (200 * (Z.pos n * s) + s) with (s + (100 * Z.pos n) * (2 * s)) by lia.
      rewrite Z.div_add by lia. rewrite (Z.div_small s (2 * s)) by lia. lia.
Qed.

Lemma toFixed2_whole (n : positive) :
  Z.pos n < 2 ^ 53 ->
  toFixed2 (JsNumber.of_Z (Z.pos n)) = Literal (decimal (N.pos n) ++ js ".00").
Proof.
  intros Hn. destruct (of_Z_hundredths n Hn) as (T & e & -> & Hbig & Hh).
  unfold toFixed2. rewrite Hbig, Hh. cbn [app]. rewrite with_point_decimal.
  replace (100 * N.pos n / 100)%N with (N.pos n)
    by (rewrite N.mul_comm, N.div_mul; lia).
  replace ((100 * N.pos n / 10) mod 10)%N with 0%N.
  2:{ replace (100 * N.pos n)%N with (10 * N.pos n * 10)%N by lia.
      rewrite N.div_mul by lia. rewrite N.mul_comm, N.Div0.mod_mul. done. }
  replace ((100 * N.pos n) mod 10)%N with 0%N.
  2:{ replace (100 * N.pos n)%N with (10 * N.pos n * 10)%N by lia.
      by rewrite N.Div0.mod_mul. }
  reflexivity.
Qed.

End TextFacts.

(** ** Reading a whole amount *)

Section ParseFacts.

Import View ParseFloat.

Lemma digits_stop (r : jsstr) (acc : N) (count : nat) :
  ends_number r -> digits r acc count = (acc, count, r).
Proof.
  destruct r as [|c r]; [done |]. intros H.
  destruct (H c eq_refl) as [Hd _]. simpl. by rewrite Hd.
Qed.

Lemma digits_cons (c : N) (s : jsstr) (acc : N) (count : nat) :
  is_digit c = true ->
  digits (c :: s) acc count = digits s (10 * acc + digit_value c)%N (S count).
Proof. intros H. simpl. by rewrite H. Qed.

Lemma digits_uint_text_acc (d : Decimal.uint) (r : jsstr) (acc : positive) (count : nat) :
  ends_number r ->
  digits (uint_text d ++ r) (N.pos acc) count
  = (N.pos (Pos.of_uint_acc d acc), (count + length (uint_text d))%nat, r).
Proof.
  intros Hr. revert acc count.
  induction d; intros acc count; cbn [uint_text app Pos.of_uint_acc length];
    [rewrite digits_stop by done; do 2 f_equal; lia | ..];
    rewrite digits_cons by done;
    match goal with
    | |- digits _ (10 * N.pos ?a + digit_value ?c)%N _
         = (N.pos (Pos.of_uint_acc _ ?q), _, _) =>
        replace (10 * N.pos a + digit_value c)%N with (N.pos q)
          by (unfold digit_value; lia)
    end; rewrite IHd; do 2 f_equal; lia.
Qed.

Lemma digits_uint_text (d : Decimal.uint) (r : jsstr) (count : nat) :
  ends_number r ->
  digits (uint_text d ++ r) 0%N count
  = (Pos.of_uint d, (count + length (uint_text d))%nat, r).
Proof.
  intros Hr. revert count.
  induction d; intros count; cbn [uint_text app Pos.of_uint length];
    [rewrite digits_stop by done; do 2 f_equal; lia | ..];
    rewrite digits_cons by done;
    [change (10 * 0 + digit_value 48)%N with 0%N; rewrite IHd; do 2 f_equal; lia | ..];
    match goal with
    | |- digits _ ?a _ = (N.pos (Pos.of_uint_acc _ ?q), _, _) =>
        change a with (N.pos q)
    end; rewrite digits_uint_text_acc by done; do 2 f_equal; lia.
Qed.

Lemma digits_decimal (n : N) (r : jsstr) :
  ends_number r ->
  digits (decimal n ++ r) 0%N 0%nat = (n, length (decimal n), r).
Proof.
  intros Hr. unfold decimal. rewrite digits_uint_text by done.
  change (Pos.of_uint (N.to_uint n)) with (N.of_uint (N.to_uint n)).
  by rewrite DecimalN.Unsigned.of_to.
Qed.

Lemma exponent_stop (r : jsstr) : ends_number r -> exponent r = 0.
Proof.
  destruct r as [|c r]; [done |]. intros H.
  destruct (H c eq_refl) as (_ & _ & He & HE). simpl.
  destruct (N.eqb_spec c 101); [done |]. by destruct (N.eqb_spec c 69).
Qed.

Lemma unsigned_literal_whole (neg : bool) (n : N) (r : jsstr) :
  ends_number r ->
  unsigned_literal neg (decimal n ++ r) = JsNumber.of_decimal neg n 0.
Proof.
  intros Hr. unfold unsigned_literal.
  assert (Hinf : starts_with (JsString.lit "Infinity"%string) (decimal n ++ r) = false).
  { pose proof (decimal_digits n) as Hd. pose proof (decimal_nonempty n) as Hne.
    destruct (decimal n) as [|c ds]; [done |].
    apply Forall_cons in Hd as [Hc _].
    change (starts_with (JsString.lit "Infinity"%string) ((c :: ds) ++ r))
      with ((73 =? c)%N && starts_with (JsString.lit "nfinity"%string) (ds ++ r)).
    destruct (N.eqb_spec 73 c) as [<- |]; done. }
  rewrite Hinf, digits_decimal by done.
  pose proof (decimal_nonempty n) as Hne.
  destruct (length (decimal n)) as [|k] eqn:Hlen;
    [by destruct (decimal n) |].
  rewrite exponent_stop by done.
  destruct r as [|c r]; [done |].
  destruct (Hr c eq_refl) as (_ & Hdot & _).
  destruct c as [|p]; [done |].
  do 6 (destruct p as [p|p|]; try done).
Qed.

Lemma parseFloat_whole (l r : jsstr) (n : positive) :
  blank l -> ends_number r ->
  parseFloat (l ++ decimal (N.pos n) ++ r) = JsNumber.of_Z (Z.pos n).
Proof.
  intros Hl Hr. unfold parseFloat. rewrite trimStart_blank_app by done.
  pose proof (decimal_digits (N.pos n)) as Hd.
  pose proof (decimal_nonempty (N.pos n)) as Hne.
  assert (Hsign : sign (decimal (N.pos n) ++ r) = (false, decimal (N.pos n) ++ r)
                  /\ JsString.trimStart (decimal (N.pos n) ++ r) = decimal (N.pos n) ++ r).
  { destruct (decimal (N.pos n)) as [|c ds]; [done |].
    apply Forall_cons in Hd as [Hc _]. unfold is_digit in Hc.
    apply andb_true_iff in Hc as [Hlo Hhi].
    apply N.leb_le in Hlo, Hhi. simpl.
    assert (Hws : JsString.is_white_space c = false).
    { unfold JsString.is_white_space. cbv zeta.
      repeat (apply orb_false_iff; split); try (apply Z.eqb_neq; lia).
      apply andb_false_iff. left. apply Z.leb_gt. lia. }
    rewrite Hws. split; [| done].
    destruct c as [|p]; [done |].
    do 6 (destruct p as [p|p|]; try done); lia. }
  destruct Hsign as [Hsign ->]. rewrite Hsign.
  by rewrite unsigned_literal_whole.
Qed.

End ParseFacts.

(** ** The rows of the list *)

Section ViewFacts.

Import View.

Lemma synced_table (w : world) :
  synced w ->
  exists tb, db w = Some tb /\ expenses (ui w) = Db.order_by_id_desc (Db.rows tb).
Proof.
  unfold synced. destruct (db w) as [tb|]; simpl; [| done].
  intros [= H]. eauto.
Qed.

Lemma same_id_same_row (m : gmap Z Db.row) (x y : Expense.t) :
  x ∈ Db.order_by_id_desc m -> y ∈ Db.order_by_id_desc m ->
  Expense.id x = Expense.id y -> x = y.
Proof.
  intros Hx Hy. apply elem_of_order_by_id_desc in Hx as (k & r & Hk & ->).
  apply elem_of_order_by_id_desc in Hy as (k' & r' & Hk' & ->).
  simpl. intros <-. congruence.
Qed.

Lemma keyExtractor_inj (a b : Expense.t) :
  Z.abs (Expense.id a) < 2 ^ 53 -> Z.abs (Expense.id b) < 2 ^ 53 ->
  keyExtractor a = keyExtractor b -> Expense.id a = Expense.id b.
Proof.
  intros Ha Hb. unfold keyExtractor. cbv zeta.
  apply Z.ltb_lt in Ha, Hb. rewrite Ha, Hb. intros [= H].
  pose proof (decimal_digits (Z.abs_N (Expense.id a))) as Hda.
  pose proof (decimal_digits (Z.abs_N (Expense.id b))) as Hdb.
  pose proof (decimal_nonempty (Z.abs_N (Expense.id a))) as Hna.
  pose proof (decimal_nonempty (Z.abs_N (Expense.id b))) as Hnb.
  destruct (Z.ltb_spec (Expense.id a) 0), (Z.ltb_spec (Expense.id b) 0).
  - apply app_inv_head, decimal_inj in H. lia.
  - destruct (decimal (Z.abs_N (Expense.id b))) as [|c ds]; [done |].
    apply Forall_cons in Hdb as [Hc _]. injection H as <- _. done.
  - destruct (decimal (Z.abs_N (Expense.id a))) as [|c ds]; [done |].
    apply Forall_cons in Hda as [Hc _]. injection H as -> _. done.
  - apply decimal_inj in H. lia.
Qed.

Lemma filter_id_split (before after : list Expense.t) (item : Expense.t) :
  NoDup (Expense.id <$> before ++ item :: after) ->
  filter (fun x => Expense.id x <> Expense.id item) (before ++ item :: after)
  = before ++ after.
Proof.
  rewrite fmap_app, fmap_cons. intros Hnd.
  apply NoDup_app in Hnd as (_ & Hdisj & Hnd).
  apply NoDup_cons in Hnd as [Hnotin _].
  rewrite filter_app, filter_cons_False by (intros H; by apply H).
  rewrite !filter_all; [done | |].
  - apply Forall_forall. intros x Hx Heq. apply Hnotin. rewrite <- Heq.
    by apply list_elem_of_fmap_2.
  - apply Forall_forall. intros x Hx Heq.
    apply (Hdisj (Expense.id x)); [by apply list_elem_of_fmap_2 |].
    rewrite Heq. apply elem_of_cons. by left.
Qed.

Lemma length_order_by_id_desc (m : gmap Z Db.row) :
  length (Db.order_by_id_desc m) = size m.
Proof.
  unfold Db.order_by_id_desc.
  by rewrite merge_sort_Permutation, length_fmap, length_map_to_list.
Qed.

Lemma order_by_id_desc_nil (m : gmap Z Db.row) :
  Db.order_by_id_desc m = [] <-> m = ∅.
Proof.
  rewrite <- map_size_empty_iff, <- length_order_by_id_desc. split.
  - by intros ->.
  - apply nil_length_inv.
Qed.

Lemma positive_amount_text (x : number) :
  JsNumber.ltb JsNumber.zero x = true -> toFixed2 x <> Literal (js "NaN").
Proof.
  destruct x as [[]|[]| |[] m e]; try done; intros _.
  unfold toFixed2. cbn [app]. destruct (at_least_1e21 m e); [done |].
  intros [= H].
  pose proof (with_point_long (decimal (hundredths m e))) as Hlen.
  rewrite H in Hlen. simpl in Hlen. lia.
Qed.

Lemma shown_fields (k : Z) (r : Db.row) :
  well_formed r ->
  let row := renderExpense (Db.to_expense (k, r)) in
  noteText row = Db.row_note r
  /\ categoryText row = Some (Db.row_category r)
  /\ exists p, amountText row = [Literal (js "$"); p] /\ p <> Literal (js "NaN").
Proof.
  intros (Ha & Hc & _ & Hn). cbv zeta.
  unfold renderExpense, Db.to_expense.
  cbn [noteText categoryText amountText Expense.note Expense.category
       Expense.amount snd fst].
  split; [| split; [done |]].
  - destruct (Db.row_note r) as [n|]; [| done].
    destruct (Hn n eq_refl) as [Hne _]. by destruct n.
  - eexists. split; [done |]. by apply positive_amount_text.
Qed.

End ViewFacts.

(** X13. When the rows stored at the start are as [addExpense] stores
    them, every row of the list after mounting and any sequence of adds
    and deletes shows a note line exactly when a note is stored, and then
    that note; it shows a category that is not empty, and as its amount
    the dollar sign followed by one piece of text that is not [NaN]. *)
Theorem rows_show_stored_fields (w : world) (ops : list op) :
  tidy (db w) ->
  Forall (fun item =>
            let row := View.renderExpense item in
            View.noteText row = Expense.note item
            /\ (exists c, View.categoryText row = Some c /\ c <> [])
            /\ exists p, View.amountText row = [View.Literal (js "$"); p]
                         /\ p <> View.Literal (js "NaN"))
         (expenses (ui (run ops (final (setup w))))).
Proof.
  intros Hw. pose proof (run_tidy w ops Hw) as Htidy.
  destruct (synced_table _ (run_synced w ops)) as (tb & Htb & ->).
  apply Forall_forall. intros item Hin.
  apply elem_of_order_by_id_desc in Hin as (k & r & Hk & ->).
  pose proof (Htidy tb k r Htb Hk) as Hr.
  destruct (shown_fields k r Hr) as (Hn & Hc & Ha). cbv zeta.
  split; [done |]. split; [| done].
  exists (Db.row_category r). split; [done |]. by destruct Hr as (_ & ? & _).
Qed.

Lemma rows_show_stored_fields_witness :
  Forall (fun item =>
            let row := View.renderExpense item in
            View.noteText row = Expense.note item
            /\ (exists c, View.categoryText row = Some c /\ c <> [])
            /\ exists p, View.amountText row = [View.Literal (js "$"); p]
                         /\ p <> View.Literal (js "NaN"))
         (expenses (ui (run [Add (js "7") (js "Bus") (js " ")]
                          (final (setup (sample_world "" "" "")))))).
Proof.
  apply (rows_show_stored_fields (sample_world "" "" "")). apply sample_tidy.
Defined.

(** X14. Pressing the delete button of a row of the list removes that
    row and no other: the list afterwards is the list before without it,
    in the same order, and is again the list of the table. *)
Theorem delete_button_removes_its_row (w : world) (item : Expense.t) :
  synced w -> item ∈ expenses (ui w) ->
  exists w' before after,
    View.onPress (View.renderExpense item) w = Resolved tt w'
    /\ expenses (ui w) = before ++ item :: after
    /\ expenses (ui w') = before ++ after
    /\ synced w'.
Proof.
  intros Hs Hin. destruct (synced_table w Hs) as (tb & Htb & Hl).
  apply list_elem_of_split in Hin as (before & after & Hsplit).
  eexists _, before, after.
  split; [by apply (deleteExpense_runs _ tb) |]. split; [done |].
  cbn [ui expenses db]. split.
  - rewrite <- Hl, Hsplit. apply filter_id_split.
    rewrite <- Hsplit, Hl. apply NoDup_order_by_id_desc.
  - unfold synced. cbn [db ui expenses Db.select_all_desc Db.rows].
    by rewrite order_by_id_desc_delete.
Qed.

Lemma delete_button_removes_its_row_witness :
  exists w' before after,
    View.onPress (View.renderExpense (priced 3 "5" "Food"))
      (final (setup (sample_world "" "" ""))) = Resolved tt w'
    /\ expenses (ui (final (setup (sample_world "" "" ""))))
       = before ++ priced 3 "5" "Food" :: after
    /\ expenses (ui w') = before ++ after
    /\ synced w'.
Proof.
  apply (delete_button_removes_its_row (final (setup (sample_world "" "" "")))).
  - vm_compute. reflexivity.
  - vm_compute. apply elem_of_cons. by left.
Defined.

(** X15. When the list is the list of the table and every id is a safe
    integer (below 2^53 in absolute value), the keys [keyExtractor] gives
    to the rows of the [FlatList] are pairwise distinct. *)
Theorem list_keys_distinct (w : world) :
  synced w ->
  Forall (fun item => Z.abs (Expense.id item) < 2 ^ 53) (expenses (ui w)) ->
  NoDup (View.list_rows (View.render (ui w))).*1.
Proof.
  intros Hs Hsafe. destruct (synced_table w Hs) as (tb & Htb & Hl).
  unfold View.render. cbn [View.list_rows]. rewrite <- list_fmap_compose.
  rewrite Hl in *. rewrite Forall_forall in Hsafe.
  apply NoDup_fmap_2_strong.
  - intros x y Hx Hy Hkey. apply (same_id_same_row (Db.rows tb)); [done | done |].
    apply keyExtractor_inj; auto.
  - apply StronglySorted_newer_NoDup, order_by_id_desc_sorted.
Qed.

Lemma list_keys_distinct_witness :
  NoDup (View.list_rows (View.render (ui (final (setup (sample_world "" "" "")))))).*1.
Proof.
  apply (list_keys_distinct (final (setup (sample_world "" "" "")))).
  - vm_compute. reflexivity.
  - apply Forall_forall. intros item Hin. vm_compute in Hin.
    apply elem_of_cons in Hin as [-> | Hin];
      [| apply elem_of_cons in Hin as [-> | Hin]; [| by apply elem_of_nil in Hin]];
      reflexivity.
Defined.

(** X16. After mounting and any sequence of adds and deletes the
    [FlatList] has one row for each row of the table, with the key of its
    id; the message of [ListEmptyComponent] shows exactly when the table
    has no row, and the chart is left out exactly then. *)
Theorem screen_follows_table (w : world) (ops : list op) :
  let w1 := run ops (final (setup w)) in
  let s := View.render (ui w1) in
  exists tb,
    db w1 = Some tb
    /\ length (View.list_rows s) = size (Db.rows tb)
    /\ (forall k r, Db.rows tb !! k = Some r ->
          (View.keyExtractor (Db.to_expense (k, r)),
           View.renderExpense (Db.to_expense (k, r))) ∈ View.list_rows s)
    /\ (View.emptyMessage s = true <-> Db.rows tb = ∅)
    /\ (View.chart s = None <-> Db.rows tb = ∅).
Proof.
  intros w1 s. destruct (synced_table _ (run_synced w ops)) as (tb & Htb & Hl).
  fold w1 in Htb, Hl. exists tb. split; [done |].
  unfold s, View.render. cbn [View.list_rows View.emptyMessage View.chart].
  rewrite Hl. split; [by rewrite length_fmap, length_order_by_id_desc |].
  split.
  { intros k r Hk.
    apply (list_elem_of_fmap_2
             (fun item => (View.keyExtractor item, View.renderExpense item))).
    apply elem_of_order_by_id_desc. eauto. }
  rewrite <- order_by_id_desc_nil.
  destruct (Db.order_by_id_desc (Db.rows tb)); simpl; split; split; done.
Qed.

(** X17. A row whose amount is a positive finite number [m * 2^e] below
    10^21 shows the dollar sign, then the whole part, a point and two
    digits of [n], where [n / 100] is nearest to the amount among the
    hundredths (the larger one of two equally near). *)
Theorem amount_text_nearest_cent (item : Expense.t) (m : positive) (e : Z) :
  Expense.amount item = S754_finite false m e ->
  View.at_least_1e21 m e = false ->
  let n := View.hundredths m e in
  let s := 2 ^ Z.max 0 (- e) in
  View.amountText (View.renderExpense item)
  = [View.Literal (js "$");
     View.Literal (View.decimal (n / 100)
                   ++ [46; 48 + (n / 10) mod 10; 48 + n mod 10]%N)]
  /\ - s < 2 * (Z.of_N n * s - 100 * Z.pos m * 2 ^ Z.max 0 e) <= s.
Proof.
  intros Hx Hbig n s. split; [| apply hundredths_nearest].
  unfold View.renderExpense. cbn [View.amountText]. rewrite Hx.
  unfold View.toFixed2. rewrite Hbig. cbn [app].
  by rewrite with_point_decimal.
Qed.

Lemma amount_text_nearest_cent_witness :
  View.amountText
    (View.renderExpense
       (Expense.mk 1 (S754_finite false 7036874417766400 (-49)) (Some (js "Food")) None))
  = [View.Literal (js "$"); View.Literal (js "12.50")]
  /\ - 2 ^ 49 < 2 * (1250 * 2 ^ 49 - 100 * 7036874417766400 * 2 ^ 0) <= 2 ^ 49.
Proof.
  apply (amount_text_nearest_cent
           (Expense.mk 1 (S754_finite false 7036874417766400 (-49)) (Some (js "Food")) None)
           7036874417766400 (-49)); reflexivity.
Defined.

(** X18. An amount typed as the digits of a whole number from 1 to
    2^53 - 1, with white space before it and with any text after it that
    does not continue a number, is stored as that number, and the new
    first row of the list shows the dollar sign, the same digits and
    [.00]. *)
Theorem whole_amount_shown_as_typed (w : world) (tb : Db.table)
    (n : positive) (l r : jsstr) :
  db w = Some tb ->
  amount (ui w) = l ++ View.decimal (N.pos n) ++ r ->
  blank l -> ends_number r ->
  Z.pos n < 2 ^ 53 ->
  ~ blank (category (ui w)) ->
  exists w' key row rest,
    addExpense w = Resolved tt w'
    /\ View.list_rows (View.render (ui w')) = (key, row) :: rest
    /\ View.amountText row
       = [View.Literal (js "$"); View.Literal (View.decimal (N.pos n) ++ js ".00")]
    /\ exists tb', db w' = Some tb'
         /\ Db.row_amount <$> Db.rows tb' !! Db.next_rowid tb
            = Some (JsNumber.of_Z (Z.pos n)).
Proof.
  intros Hdb Ha Hl Hr Hn Hc.
  assert (Hparse : parseFloat (amount (ui w)) = JsNumber.of_Z (Z.pos n))
    by (rewrite Ha; by apply parseFloat_whole).
  assert (Hacc : rejects (ui w) = false).
  { apply accepted; [| by rewrite trim_blank].
    rewrite Hparse. destruct (of_Z_pos n Hn) as (T & -> & _). done. }
  eexists _, _, _, _. split; [by apply (addExpense_accepts _ tb) |].
  cbn [ui cleared View.render View.list_rows expenses fmap list_fmap].
  split; [reflexivity |].
  unfold View.renderExpense, Db.to_expense, submitted.
  cbn [View.amountText Expense.amount snd Db.row_amount].
  rewrite Hparse, toFixed2_whole by done. split; [done |].
  eexists. cbn [db]. split; [done |]. cbn [Db.rows].
  by rewrite lookup_insert_eq.
Qed.

Lemma whole_amount_shown_as_typed_witness :
  exists w' key row rest,
    addExpense (sample_world " 12 dollars" "Food" "") = Resolved tt w'
    /\ View.list_rows (View.render (ui w')) = (key, row) :: rest
    /\ View.amountText row
       = [View.Literal (js "$"); View.Literal (View.decimal 12 ++ js ".00")]
    /\ exists tb', db w' = Some tb'
         /\ Db.row_amount <$> Db.rows tb' !! Db.next_rowid sample_table
            = Some (JsNumber.of_Z 12).
Proof.
  apply (whole_amount_shown_as_typed (sample_world " 12 dollars" "Food" "")
           sample_table 12 (js " ") (js " dollars")).
  - reflexivity.
  - reflexivity.
  - repeat constructor.
  - intros c [= <-]. repeat split; done.
  - reflexivity.
  - intros H. apply Forall_cons in H as [H _]. discriminate H.
Defined.
